(** * QUBEKit: the RDKit engine ([QUBEKit/engines/rdkit.py])

    A shallow embedding of the static methods of the [RDKit] class and
    the properties of the symmetry classifier, the parse dispatcher, the
    force-field optimiser front end and the conformer appender.

    Python values are modelled as follows: an [int] is a [Z], a [str] is a
    [string], a list is a [list], a [dict] keyed by atom index is a
    [gmap nat string] (two dicts are equal in Python when they hold the
    same items, which is [gmap]'s equality), a raised exception is the
    [Raise] case of [result]. The rank array [np.array([...])] is the
    list of the integers that [int(...)] produced for the atoms; CIP ranks
    are small, and the fixed-width storage of numpy is not modelled. *)

From Stdlib Require Import Ascii.
From stdpp Require Import gmap strings list pretty sorting.

Open Scope Z_scope.

(** ** Exceptions and results *)

(** The exceptions the modelled code can raise. *)
Inductive exn : Type :=
  | ValueError                 (* [max()] of an empty sequence *)
  | KeyError (key : string)    (* dict subscript or [GetProp] on a missing key *)
  | AttributeError             (* attribute access on [None] or on a [str] *)
  | EOFError                   (* [input()] with nothing left to read *)
  | RangeError                 (* toolkit index out of range *)
  | ArgumentError              (* toolkit call whose argument has the wrong type *)
  | ToolkitError (msg : string). (* any fault raised inside the toolkit *)

Inductive result (A : Type) : Type :=
  | Ok (a : A)
  | Raise (e : exn).
Arguments Ok {A} a.
Arguments Raise {A} e.

Definition is_Ok {A} (r : result A) : Prop := ∃ a, r = Ok a.
Definition raises {A} (r : result A) : Prop := ∃ e, r = Raise e.

#[global] Instance result_ret : MRet result := λ A a, Ok a.
#[global] Instance result_bind : MBind result := λ A B f r,
  match r with
  | Ok a => f a
  | Raise e => Raise e
  end.

(** ** Python and numpy primitives used by the classifier *)

(** [str(i)] on an [int]: decimal digits, ["-"] in front of a negative. *)
Definition py_str (i : Z) : string := pretty i.

(** [max(xs)]: [ValueError] on an empty sequence, otherwise the first
    item, replaced by each later item that is greater. *)
Definition py_max (xs : list Z) : result Z :=
  match xs with
  | [] => Raise ValueError
  | x :: rest => Ok (foldl (λ m y, if bool_decide (m < y) then y else m) x rest)
  end.

(** [range(stop)]: [0, 1, ..., stop - 1], empty when [stop <= 0]. *)
Definition py_range (stop : Z) : list Z := seqZ 0 stop.

(** [enumerate(xs)]: the items paired with their positions from 0. *)
Definition py_enumerate {A} (xs : list A) : list (Z * A) :=
  zip (seqZ 0 (Z.of_nat (length xs))) xs.

(** [np.where(cip_ranks == rank)[0].tolist()], scanning from position
    [start]: the positions holding [rank], in ascending order. *)
Fixpoint np_where_eq_from (start : nat) (cip_ranks : list Z) (rank : Z)
  : list nat :=
  match cip_ranks with
  | [] => []
  | r :: rest =>
      if bool_decide (r = rank)
      then start :: np_where_eq_from (S start) rest rank
      else np_where_eq_from (S start) rest rank
  end.

Definition np_where_eq (cip_ranks : list Z) (rank : Z) : list nat :=
  np_where_eq_from 0 cip_ranks rank.

(** ** The symmetry classifier over the rank array
    ([find_symmetry_classes], from "Map the ranks to the atoms" on) *)

(** The inner loop: [for atom in sym_class: d[atom] = str(i)]. *)
Definition assign_class (i : Z) (d : gmap nat string) (sym_class : list nat)
  : gmap nat string :=
  foldl (λ d atom, <[atom := py_str i]> d) d sym_class.

(** The outer loop over [enumerate(atom_symmetry_classes)]. *)
Definition classes_to_dict (atom_symmetry_classes : list (list nat))
  : gmap nat string :=
  foldl (λ d p, assign_class p.1 d p.2) ∅ (py_enumerate atom_symmetry_classes).

(** The list of classes: one bucket per [rank in range(max(cip_ranks) + 1)]. *)
Definition symmetry_classes (cip_ranks : list Z) : result (list (list nat)) :=
  max_rank ← py_max cip_ranks;
  Ok (np_where_eq cip_ranks <$> py_range (max_rank + 1)).

Definition classify (cip_ranks : list Z) : result (gmap nat string) :=
  atom_symmetry_classes ← symmetry_classes cip_ranks;
  Ok (classes_to_dict atom_symmetry_classes).

(** The precondition of the classifier: at least one atom, no negative rank. *)
Definition rank_precondition (cip_ranks : list Z) : Prop :=
  (1 ≤ length cip_ranks)%nat ∧ Forall (λ r, 0 ≤ r) cip_ranks.

(** The label the classifier gives to a rank: its decimal string when the
    rank is not negative, no entry at all otherwise. *)
Definition label_of_rank (r : Z) : option string :=
  if bool_decide (0 ≤ r) then Some (py_str r) else None.


(** A second reading of the labelling, following the wording "each
    non-empty rank bucket gets a label equal to its sequential position
    among the buckets actually produced": the empty buckets are dropped
    before the positions are taken. It is compared with [classify] below. *)
Definition dense_classify (cip_ranks : list Z) : result (gmap nat string) :=
  atom_symmetry_classes ← symmetry_classes cip_ranks;
  Ok (classes_to_dict (filter (λ sym_class, sym_class ≠ []) atom_symmetry_classes)).

(** ** Molecules *)

(** A Python [float], kept as its binary64 bit pattern: the code stores
    and copies coordinates and never computes with them. *)
Definition float64 : Type := Z.

Record Point3D : Type := mkPoint3D { px : float64; py : float64; pz : float64 }.

Definition origin : Point3D := mkPoint3D 0 0 0.

(** An atom: its element and its [_CIPRank] property, held as the integer
    that [int(atom.GetProp("_CIPRank"))] evaluates to ([None] when the
    property is not set). *)
Record Atom : Type := mkAtom { element : string; cip_rank : option Z }.

Record Conformer : Type := mkConformer { conf_id : Z; positions : list Point3D }.

Record Molecule : Type := mkMolecule {
  mol_name : option string;          (* the [_Name] property *)
  atoms : list Atom;                 (* in atom-index order *)
  bonds : list (nat * nat);
  conformers : list Conformer        (* in the order they were added *)
}.

#[global] Instance Point3D_eq_dec : EqDecision Point3D.
Proof. solve_decision. Defined.
#[global] Instance Atom_eq_dec : EqDecision Atom.
Proof. solve_decision. Defined.
#[global] Instance Conformer_eq_dec : EqDecision Conformer.
Proof. solve_decision. Defined.
#[global] Instance Molecule_eq_dec : EqDecision Molecule.
Proof. solve_decision. Defined.

(** The values the methods return: [None], an [int], a [str] or a molecule. *)
Inductive pyvalue : Type :=
  | PyNone
  | PyInt (i : Z)
  | PyStr (s : string)
  | PyMol (mol : Molecule).

(** [rdkit_mol.GetAtomWithIdx(idx)]. *)
Definition GetAtomWithIdx (rdkit_mol : Molecule) (idx : nat) : result Atom :=
  match atoms rdkit_mol !! idx with
  | Some atom => Ok atom
  | None => Raise RangeError
  end.

(** [atom.HasProp("_CIPRank")]. *)
Definition HasProp_CIPRank (atom : Atom) : bool :=
  match cip_rank atom with Some _ => true | None => false end.

(** [int(atom.GetProp("_CIPRank"))]. *)
Definition GetProp_CIPRank (atom : Atom) : result Z :=
  match cip_rank atom with
  | Some rank => Ok rank
  | None => Raise (KeyError "_CIPRank")
  end.

(** [mol.SetProp("_Name", name)]. *)
Definition SetProp_Name (mol : Molecule) (name : string) : Molecule :=
  mkMolecule (Some name) (atoms mol) (bonds mol) (conformers mol).

(** A list comprehension [[f(x) for x in xs]] whose body can raise. *)
Fixpoint comprehension {A B} (f : A → result B) (xs : list A) : result (list B) :=
  match xs with
  | [] => Ok []
  | x :: rest => y ← f x; ys ← comprehension f rest; Ok (y :: ys)
  end.

(** ** The toolkit *)

(** The operations of the external toolkit that the methods call. What
    they compute is not part of this repository; the one contract the
    code relies on ("can assume it is present for all afterwards") is
    that stereochemistry assignment leaves a rank on every atom. *)
Class Toolkit : Type := {
  MolFromSmiles : string → option Molecule;            (* [None]: unparsable *)
  AddHs : Molecule → Molecule;
  EmbedMolecule : Molecule → Molecule;
  SanitizeMol : Molecule → result Molecule;
  MolFromPDBFile : string → result (option Molecule);
  MolFromMol2File : string → result (option Molecule);
  MolFromMolFile : string → result (option Molecule);
  MMFFOptimizeMolecule : Molecule → result Molecule;
  UFFOptimizeMolecule : Molecule → result Molecule;
  (* the two file writers: [Ok] when the file has been written, an
     exception when it cannot be opened *)
  WritePDBFile : Molecule → string → result unit;
  WriteMolFile : Molecule → string → result unit;
  AssignStereochemistry : Molecule → Molecule;
  AssignStereochemistry_ranks : ∀ mol,
    Forall (λ atom, is_Some (cip_rank atom)) (atoms (AssignStereochemistry mol))
}.

(** ** [find_symmetry_classes] *)

(** The molecule is the caller's object: the function returns its result
    together with the molecule as the call leaves it. *)
Definition find_symmetry_classes `{Toolkit} (rdkit_mol : Molecule)
  : result (gmap nat string) * Molecule :=
  match GetAtomWithIdx rdkit_mol 0 with
  | Raise e => (Raise e, rdkit_mol)
  | Ok first_atom =>
      let rdkit_mol :=
        if negb (HasProp_CIPRank first_atom)
        then AssignStereochemistry rdkit_mol
        else rdkit_mol in
      (cip_ranks ← comprehension GetProp_CIPRank (atoms rdkit_mol);
       classify cip_ranks,
       rdkit_mol)
  end.

(** ** [add_conformer] *)

(** [Chem.Conformer()]: no atom position yet. *)
Definition new_Conformer : Conformer := mkConformer 0 [].

(** [Point3D] applied to the unpacked [coord]: three coordinates, or
    none for the origin. *)
Definition make_Point3D (coord : list float64) : result Point3D :=
  match coord with
  | [] => Ok origin
  | [x; y; z] => Ok (mkPoint3D x y z)
  | _ => Raise ArgumentError
  end.

(** [conformer.SetAtomPosition(i, atom_position)]: the position array
    grows (with origins) up to index [i] when it is shorter. *)
Definition SetAtomPosition (conformer : Conformer) (i : nat) (atom_position : Point3D)
  : Conformer :=
  let grown :=
    positions conformer
    ++ replicate (S i - length (positions conformer)) origin in
  mkConformer (conf_id conformer) (<[i := atom_position]> grown).

(** The identifier a newly added conformer gets: one above the largest in use. *)
Definition fresh_conformer_id (mol : Molecule) : Z :=
  foldr (λ conf acc, Z.max (conf_id conf + 1) acc) 0 (conformers mol).

(** Modelled from the spec: the toolkit's [AddConformer], which is not in
    the repository. "Molecule with new conformer appended, returns new
    conformer index"; "new conformers get a fresh index, existing ones are
    never mutated in place"; "mismatched length is an error". *)
Definition AddConformer (mol : Molecule) (conformer : Conformer) (assignId : bool)
  : result (Z * Molecule) :=
  if decide (length (positions conformer) = length (atoms mol)) then
    let conformer :=
      if assignId
      then mkConformer (fresh_conformer_id mol) (positions conformer)
      else conformer in
    Ok (conf_id conformer,
        mkMolecule (mol_name mol) (atoms mol) (bonds mol)
                   (conformers mol ++ [conformer]))
  else Raise (ToolkitError "Number of atom mismatch").

(** The loop [for i, coord in enumerate(conformer_coordinates)]. *)
Fixpoint set_positions (conformer : Conformer) (items : list (Z * list float64))
  : result Conformer :=
  match items with
  | [] => Ok conformer
  | (i, coord) :: rest =>
      atom_position ← make_Point3D coord;
      set_positions (SetAtomPosition conformer (Z.to_nat i) atom_position) rest
  end.

(** The value of [AddConformer] is dropped; the method returns [rdkit_mol]. *)
Definition add_conformer (rdkit_mol : Molecule) (conformer_coordinates : list (list float64))
  : result pyvalue * Molecule :=
  match set_positions new_Conformer (py_enumerate conformer_coordinates) with
  | Raise e => (Raise e, rdkit_mol)
  | Ok conformer =>
      match AddConformer rdkit_mol conformer true with
      | Raise e => (Raise e, rdkit_mol)
      | Ok (_, rdkit_mol) => (Ok (PyMol rdkit_mol), rdkit_mol)
      end
  end.

(** ** The outside world: terminal input and toolkit calls *)

Inductive file_format : Type := PDB | MOL2 | MOL.

Inductive force_field : Type := MMFF | UFF.

(** What a method does to the world, in the order it happens. *)
Inductive event : Type :=
  | Prompted (prompt : string)                       (* [input(prompt)] *)
  | SmilesParsed (smiles : string)                   (* [AllChem.MolFromSmiles] *)
  | Embedded                                         (* [AllChem.EmbedMolecule] *)
  | FileRead (format : file_format) (fname : string) (* [Chem.MolFrom...File] *)
  | OptimiserCalled (ff : force_field)               (* [...OptimizeMolecule] *)
  | FileWritten (fname : string).                    (* a file writer has written *)

#[global] Instance file_format_eq_dec : EqDecision file_format.
Proof. solve_decision. Defined.
#[global] Instance force_field_eq_dec : EqDecision force_field.
Proof. solve_decision. Defined.
#[global] Instance event_eq_dec : EqDecision event.
Proof. solve_decision. Defined.

Record world : Type := mkWorld {
  trace : list event;     (* the events so far, oldest first *)
  stdin : list string     (* the lines still to be read from the terminal *)
}.

(** Computations that read and change the world and can raise. *)
Definition M (A : Type) : Type := world → result A * world.

#[global] Instance M_ret : MRet M := λ A a w, (Ok a, w).
#[global] Instance M_bind : MBind M := λ A B f m w,
  match m w with
  | (Ok a, w') => f a w'
  | (Raise e, w') => (Raise e, w')
  end.

Definition raise {A} (e : exn) : M A := λ w, (Raise e, w).

Definition lift {A} (r : result A) : M A := λ w, (r, w).

Definition emit (ev : event) : M unit :=
  λ w, (Ok (), mkWorld (trace w ++ [ev]) (stdin w)).

(** [input(prompt)]: shows the prompt and takes the next line. *)
Definition py_input (prompt : string) : M string :=
  λ w,
    let w' := mkWorld (trace w ++ [Prompted prompt]) (tail (stdin w)) in
    match stdin w with
    | [] => (Raise EOFError, w')
    | line :: _ => (Ok line, w')
    end.

Definition is_optimiser_call (ev : event) : bool :=
  match ev with OptimiserCalled _ => true | _ => false end.

Definition is_file_read (ev : event) : bool :=
  match ev with FileRead _ _ => true | _ => false end.

(** The optimiser calls, respectively file reads, recorded in a world. *)
Definition optimiser_calls (w : world) : list event :=
  filter (λ ev, is_optimiser_call ev = true) (trace w).

Definition file_reads (w : world) : list event :=
  filter (λ ev, is_file_read ev = true) (trace w).

(** ** [smiles_to_rdkit_mol] and [mol_input_to_rdkit_mol] *)

(** A [pathlib.Path], by the three attributes the methods read. *)
Record Path : Type := mkPath {
  path_name : string;
  path_suffix : string;
  path_stem : string
}.

(** The first argument of the dispatcher: a [str] or a [pathlib.Path]. *)
Inductive MolInput : Type :=
  | InputStr (smiles : string)
  | InputPath (path : Path).

(** The prompt: two lines, the second one [>]. *)
Definition name_prompt : string :=
  "Please enter a name for the molecule:" +:+ String "010"%char ">".

Definition smiles_to_rdkit_mol `{Toolkit} (smiles_string : string) (name : option string)
  : M pyvalue :=
  emit (SmilesParsed smiles_string);;
  let mol := MolFromSmiles smiles_string in
  name ← match name with
         | None => py_input name_prompt
         | Some name => mret name
         end;
  mol ← match mol with
        | None => raise AttributeError
        | Some mol => mret (SetProp_Name mol name)
        end;
  let mol_hydrogens := AddHs mol in
  emit Embedded;;
  let mol_hydrogens := EmbedMolecule mol_hydrogens in
  mol_hydrogens ← lift (SanitizeMol mol_hydrogens);
  mret (PyMol mol_hydrogens).

(** A file reader of the toolkit: a molecule, or [None] when the file
    does not parse. *)
Definition read_file (format : file_format) (reader : string → result (option Molecule))
    (fname : string) : M pyvalue :=
  emit (FileRead format fname);;
  mol ← lift (reader fname);
  mret (match mol with Some mol => PyMol mol | None => PyNone end).

Definition mol_input_to_rdkit_mol `{Toolkit} (mol_input : MolInput) (name : option string)
  : M pyvalue :=
  match mol_input with
  | InputStr smiles => smiles_to_rdkit_mol smiles name
  | InputPath path =>
      if decide (path_suffix path = ".pdb") then
        read_file PDB MolFromPDBFile (path_name path)
      else if decide (path_suffix path = ".mol2") then
        read_file MOL2 MolFromMol2File (path_name path)
      else if decide (path_suffix path = ".mol") then
        read_file MOL MolFromMolFile (path_name path)
      else mret PyNone
  end.

(** The suffix that sends a path to the reader of a format. *)
Definition format_suffix (format : file_format) : string :=
  match format with
  | PDB => ".pdb"
  | MOL2 => ".mol2"
  | MOL => ".mol"
  end.

(** [w'] is [w] after some more events, all of which satisfy [P]. *)
Definition extends (P : event → Prop) (w w' : world) : Prop :=
  ∃ evs, trace w' = trace w ++ evs ∧ Forall P evs.

(** ** [mm_optimise] *)

(** A call of one of the two optimisers: it changes the molecule in
    place and refuses anything that is not a molecule. *)
Definition call_optimiser `{Toolkit} (ff : force_field) (mol : pyvalue) : M pyvalue :=
  emit (OptimiserCalled ff);;
  match mol with
  | PyMol mol =>
      mol ← lift (match ff with
                  | MMFF => MMFFOptimizeMolecule mol
                  | UFF => UFFOptimizeMolecule mol
                  end);
      mret (PyMol mol)
  | _ => raise ArgumentError
  end.

(** The dict [{"MMF": MMFFOptimizeMolecule, "UFF": UFFOptimizeMolecule}]. *)
Definition optimisers `{Toolkit} : gmap string (pyvalue → M pyvalue) :=
  <["UFF" := call_optimiser UFF]> (<["MMF" := call_optimiser MMFF]> ∅).

(** [filename.stem]: a [str] has no such attribute. *)
Definition get_stem (filename : MolInput) : M string :=
  match filename with
  | InputPath path => mret (path_stem path)
  | InputStr _ => raise AttributeError
  end.

(** [AllChem.MolToPDBFile(mol, fname)]: the file is written unless the
    writer raises (the file cannot be opened); [None] is refused. *)
Definition MolToPDBFile `{Toolkit} (mol : pyvalue) (fname : string) : M unit :=
  match mol with
  | PyMol mol => lift (WritePDBFile mol fname);; emit (FileWritten fname)
  | _ => raise ArgumentError
  end.

Definition mm_optimise `{Toolkit} (filename : MolInput) (ff : string) : M pyvalue :=
  mol ← mol_input_to_rdkit_mol filename None;
  optimise ← match optimisers !! ff with
             | Some optimise => mret optimise
             | None => raise (KeyError ff)
             end;
  mol ← optimise mol;
  stem ← get_stem filename;
  MolToPDBFile mol (stem +:+ "_rdkit_optimised.pdb");;
  stem ← get_stem filename;
  mret (PyStr (stem +:+ "_rdkit_optimised.pdb")).

(** ** A toolkit to run the methods on *)

(** A small stand-in for the toolkit: every SMILES string parses to a
    one-atom molecule, files hold such a molecule, optimisation and
    embedding change nothing, and stereochemistry assignment ranks the
    atoms by position. *)
Definition rank_by_position (mol : Molecule) : Molecule :=
  mkMolecule (mol_name mol)
             (imap (λ i atom, mkAtom (element atom) (Some (Z.of_nat i))) (atoms mol))
             (bonds mol) (conformers mol).

Definition one_atom : Molecule :=
  mkMolecule None [mkAtom "C" None] [] [].

(** A world in which nothing has happened yet and the user will type
    one line. *)
Definition fresh_world : world := mkWorld [] ["ethane"].

Definition stub_toolkit : Toolkit.
Proof.
  refine {|
    MolFromSmiles := λ _, Some one_atom;
    AddHs := λ mol, mol;
    EmbedMolecule := λ mol, mol;
    SanitizeMol := λ mol, Ok mol;
    MolFromPDBFile := λ _, Ok (Some one_atom);
    MolFromMol2File := λ _, Ok (Some one_atom);
    MolFromMolFile := λ _, Ok None;
    MMFFOptimizeMolecule := λ mol, Ok mol;
    UFFOptimizeMolecule := λ mol, Ok mol;
    WritePDBFile := λ _ _, Ok ();
    WriteMolFile := λ _ _, Ok ();
    AssignStereochemistry := rank_by_position
  |}.
  intros mol. apply Forall_forall. intros atom Hin. simpl in Hin.
  apply list_elem_of_lookup in Hin as [i Hi].
  rewrite list_lookup_imap in Hi.
  destruct (atoms mol !! i); simpl in Hi; [|done].
  injection Hi as <-. by eexists.
Defined.

(** ** Calling the classifier *)

(** The molecule carries the rank array [cip_ranks]: atom [i] has its
    [_CIPRank] set to [cip_ranks[i]]. *)
Definition carries_ranks (mol : Molecule) (cip_ranks : list Z) : Prop :=
  cip_rank <$> atoms mol = Some <$> cip_ranks.

(** Two calls in a row on the same molecule object: the second call sees
    the molecule as the first one left it. *)
Definition find_symmetry_classes_twice `{Toolkit} (rdkit_mol : Molecule)
  : result (gmap nat string) * result (gmap nat string) * Molecule :=
  let '(first, rdkit_mol) := find_symmetry_classes rdkit_mol in
  let '(second, rdkit_mol) := find_symmetry_classes rdkit_mol in
  (first, second, rdkit_mol).

(** A molecule of [n] atoms without conformers, and one that carries a
    given rank array. *)
Definition ranked_molecule (cip_ranks : list Z) : Molecule :=
  mkMolecule None ((λ rank, mkAtom "C" (Some rank)) <$> cip_ranks) [] [].

(** The binary64 pattern of [1.0]. *)
Definition one_float : float64 := 4607182418800017408.

Definition two_atoms : Molecule :=
  mkMolecule (Some "H2") [mkAtom "H" None; mkAtom "H" None] [(0%nat, 1%nat)] [].


(** ** Reading conformers back, as [generate_conformers] does *)

(** [conformer.GetPositions()]: one row of three coordinates per atom. *)
Definition GetPositions (conformer : Conformer) : list (list float64) :=
  (λ p, [px p; py p; pz p]) <$> positions conformer.

(** [rdkit_mol.GetConformers()]. *)
Definition GetConformers (rdkit_mol : Molecule) : list Conformer :=
  conformers rdkit_mol.

(** The last two lines of [generate_conformers]:
    [[conformer.GetPositions() for conformer in rdkit_mol.GetConformers()]]. *)
Definition conformer_positions (rdkit_mol : Molecule) : list (list (list float64)) :=
  GetPositions <$> GetConformers rdkit_mol.

(** ** [get_smiles], [get_smarts] and [get_mol] *)

(** The text serialisers of the toolkit. *)
Class Serialiser : Type := {
  MolToSmiles : Molecule → string;   (* with [isomericSmiles], [allHsExplicit] *)
  MolToSmarts : Molecule → string
}.

(** A serialiser called on what the dispatcher returned: like every
    toolkit function it refuses [None]. *)
Definition call_serialiser (serialise : Molecule → string) (mol : pyvalue) : M pyvalue :=
  match mol with
  | PyMol mol => mret (PyStr (serialise mol))
  | _ => raise ArgumentError
  end.

Definition get_smiles `{Toolkit} `{Serialiser} (filename : MolInput) : M pyvalue :=
  rdkit_mol ← mol_input_to_rdkit_mol filename None;
  call_serialiser MolToSmiles rdkit_mol.

Definition get_smarts `{Toolkit} `{Serialiser} (filename : MolInput) : M pyvalue :=
  mol ← mol_input_to_rdkit_mol filename None;
  call_serialiser MolToSmarts mol.

(** [Chem.MolToMolFile(mol, mol_name)]: the file is written unless the
    writer raises (the file cannot be opened); [None] is refused. *)
Definition MolToMolFile `{Toolkit} (mol : pyvalue) (mol_name : string) : M unit :=
  match mol with
  | PyMol mol => lift (WriteMolFile mol mol_name);; emit (FileWritten mol_name)
  | _ => raise ArgumentError
  end.

Definition get_mol `{Toolkit} (filename : MolInput) : M pyvalue :=
  mol ← mol_input_to_rdkit_mol filename None;
  stem ← get_stem filename;
  let mol_name := stem +:+ ".mol" in
  MolToMolFile mol mol_name;;
  mret (PyStr mol_name).

(** ** Vocabulary for the statements about the front ends *)

Definition is_file_write (ev : event) : bool :=
  match ev with FileWritten _ => true | _ => false end.

Definition file_writes (w : world) : list event :=
  filter (λ ev, is_file_write ev = true) (trace w).

(** The reader the dispatcher uses for a format. *)
Definition reader_of `{Toolkit} (format : file_format) : string → result (option Molecule) :=
  match format with
  | PDB => MolFromPDBFile
  | MOL2 => MolFromMol2File
  | MOL => MolFromMolFile
  end.

(** The force field behind a selector of [mm_optimise]. *)
Definition selector_force_field (ff : string) : option force_field :=
  if decide (ff = "MMF") then Some MMFF
  else if decide (ff = "UFF") then Some UFF
  else None.

(** The toolkit optimiser of a force field. *)
Definition optimiser_of `{Toolkit} (ff : force_field) : Molecule → result Molecule :=
  match ff with
  | MMFF => MMFFOptimizeMolecule
  | UFF => UFFOptimizeMolecule
  end.

(** The world after some more events. *)
Definition after (w : world) (evs : list event) : world :=
  mkWorld (trace w ++ evs) (stdin w).

(** A stand-in for the serialisers. *)
Definition stub_serialiser : Serialiser :=
  {| MolToSmiles := λ mol, "[CH4]"; MolToSmarts := λ mol, "[#6]" |}.

(** The format the dispatcher reads a suffix as, if any. *)
Definition suffix_format (suffix : string) : option file_format :=
  if decide (suffix = ".pdb") then Some PDB
  else if decide (suffix = ".mol2") then Some MOL2
  else if decide (suffix = ".mol") then Some MOL
  else None.

(** What the dispatcher makes of the answer of a file reader. *)
Definition reader_value (r : result (option Molecule)) : result pyvalue :=
  match r with
  | Ok (Some mol) => Ok (PyMol mol)
  | Ok None => Ok PyNone
  | Raise e => Raise e
  end.

(** A stand-in toolkit that parses no SMILES string and no file. *)
Definition strict_toolkit : Toolkit :=
  {| MolFromSmiles := λ _, None;
     AddHs := λ mol, mol;
     EmbedMolecule := λ mol, mol;
     SanitizeMol := λ mol, Ok mol;
     MolFromPDBFile := λ _, Ok None;
     MolFromMol2File := λ _, Ok None;
     MolFromMolFile := λ _, Raise (ToolkitError "Bad input file");
     MMFFOptimizeMolecule := λ mol, Ok mol;
     UFFOptimizeMolecule := λ mol, Ok mol;
     WritePDBFile := λ _ _, Ok ();
     WriteMolFile := λ _ _, Ok ();
     AssignStereochemistry := rank_by_position;
     AssignStereochemistry_ranks := @AssignStereochemistry_ranks stub_toolkit |}.

(** A stand-in toolkit that reads like [stub_toolkit] but cannot open
    any file for writing. *)
Definition readonly_toolkit : Toolkit :=
  {| MolFromSmiles := @MolFromSmiles stub_toolkit;
     AddHs := @AddHs stub_toolkit;
     EmbedMolecule := @EmbedMolecule stub_toolkit;
     SanitizeMol := @SanitizeMol stub_toolkit;
     MolFromPDBFile := @MolFromPDBFile stub_toolkit;
     MolFromMol2File := @MolFromMol2File stub_toolkit;
     MolFromMolFile := @MolFromMolFile stub_toolkit;
     MMFFOptimizeMolecule := @MMFFOptimizeMolecule stub_toolkit;
     UFFOptimizeMolecule := @UFFOptimizeMolecule stub_toolkit;
     WritePDBFile := λ _ _, Raise (ToolkitError "Bad output file");
     WriteMolFile := λ _ _, Raise (ToolkitError "Bad output file");
     AssignStereochemistry := rank_by_position;
     AssignStereochemistry_ranks := @AssignStereochemistry_ranks stub_toolkit |}.
Example classify_01021 :
  classify [0; 1; 0; 2; 1]
  = Ok (<[0%nat:="0"]> (<[1%nat:="1"]> (<[2%nat:="0"]> (<[3%nat:="2"]> (<[4%nat:="1"]> ∅))))).
Proof. vm_compute. reflexivity. Qed.

Example classify_555 :
  classify [5; 5; 5] = Ok (<[0%nat:="5"]> (<[1%nat:="5"]> (<[2%nat:="5"]> ∅))).
Proof. vm_compute. reflexivity. Qed.

(** ** Facts about the primitives *)

Lemma py_str_inj (i j : Z) : py_str i = py_str j → i = j.
Proof. unfold py_str. apply (inj pretty). Qed.

Lemma py_max_fold_spec (rest : list Z) (x : Z) :
  let m := foldl (λ m y, if bool_decide (m < y) then y else m) x rest in
  m ∈ x :: rest ∧ x ≤ m ∧ Forall (λ y, y ≤ m) rest.
Proof.
  revert x. induction rest as [|y rest IH]; intros x; simpl.
  - split; [by left|]. split; [lia|constructor].
  - case_bool_decide as Hlt.
    + destruct (IH y) as (Hin & Hle & Hall).
      split; [by apply elem_of_cons; right|]. split; [lia|]. constructor; done.
    + destruct (IH x) as (Hin & Hle & Hall).
      split; [|split; [done|constructor; [lia|done]]].
      apply elem_of_cons in Hin as [Hin|Hin]; apply elem_of_cons; [by left|].
      right. apply elem_of_cons. by right.
Qed.

Lemma py_max_spec (xs : list Z) :
  xs ≠ [] → ∃ m, py_max xs = Ok m ∧ m ∈ xs ∧ Forall (λ y, y ≤ m) xs.
Proof.
  destruct xs as [|x rest]; [done|]. intros _.
  destruct (py_max_fold_spec rest x) as (Hin & Hle & Hall).
  eexists. split; [reflexivity|]. split; [done|]. constructor; done.
Qed.

Lemma py_max_empty : py_max [] = Raise ValueError.
Proof. reflexivity. Qed.

Lemma elem_of_py_range (stop r : Z) : r ∈ py_range stop ↔ 0 ≤ r < stop.
Proof. unfold py_range. rewrite elem_of_seqZ. lia. Qed.

Lemma zip_fmap_diag {A B} (f : A → B) (l : list A) :
  zip l (f <$> l) = (λ k, (k, f k)) <$> l.
Proof. induction l as [|k l IH]; simpl; [done|]. f_equal. exact IH. Qed.

Lemma py_enumerate_range {A} (f : Z → A) (stop : Z) :
  py_enumerate (f <$> py_range stop) = (λ k, (k, f k)) <$> py_range stop.
Proof.
  unfold py_enumerate, py_range. rewrite length_fmap, length_seqZ.
  destruct (decide (0 ≤ stop)) as [Hle|Hlt].
  - rewrite Z2Nat.id by done. apply zip_fmap_diag.
  - assert (Z.to_nat stop = 0%nat) as -> by lia.
    assert (seqZ 0 stop = []) as ->; [|done].
    apply length_zero_iff_nil. rewrite length_seqZ. lia.
Qed.

Lemma elem_of_np_where_eq_from (start : nat) (cip_ranks : list Z) (rank : Z) (j : nat) :
  j ∈ np_where_eq_from start cip_ranks rank
  ↔ ∃ i : nat, j = (start + i)%nat ∧ cip_ranks !! i = Some rank.
Proof.
  revert start. induction cip_ranks as [|r rest IH]; intros start; simpl.
  - split; [by intros ?%elem_of_nil|by intros (i & _ & ?)].
  - case_bool_decide as Hr.
    + rewrite elem_of_cons, IH. split.
      * intros [->|(i & -> & Hi)].
        -- exists 0%nat. split; [lia|]. by rewrite Hr.
        -- exists (S i). split; [lia|done].
      * intros ([|i] & -> & Hi).
        -- left. lia.
        -- right. exists i. split; [lia|done].
    + rewrite IH. split.
      * intros (i & -> & Hi). exists (S i). split; [lia|done].
      * intros ([|i] & -> & Hi).
        -- simpl in Hi. congruence.
        -- exists i. split; [lia|done].
Qed.

Lemma elem_of_np_where_eq (cip_ranks : list Z) (rank : Z) (j : nat) :
  j ∈ np_where_eq cip_ranks rank ↔ cip_ranks !! j = Some rank.
Proof.
  unfold np_where_eq. rewrite elem_of_np_where_eq_from. split.
  - by intros (i & -> & Hi).
  - intros Hj. by exists j.
Qed.

(** ** The dictionary built by the two loops *)

Lemma assign_class_lookup (i : Z) (sym_class : list nat) (d : gmap nat string) (a : nat) :
  assign_class i d sym_class !! a
  = if bool_decide (a ∈ sym_class) then Some (py_str i) else d !! a.
Proof.
  unfold assign_class. revert d.
  induction sym_class as [|b cls IH]; intros d.
  - case_bool_decide as Hin; [by apply elem_of_nil in Hin|done].
  - cbn [foldl]. rewrite IH.
    case_bool_decide as Hcls; case_bool_decide as Hall; try done.
    + exfalso. apply Hall. by right.
    + apply elem_of_cons in Hall as [->|Hin]; [|done].
      by rewrite lookup_insert_eq.
    + rewrite lookup_insert_ne; [done|].
      intros ->. apply Hall. by left.
Qed.

Lemma classes_fold_lookup (cip_ranks : list Z) (ks : list Z) (d : gmap nat string) (a : nat) :
  foldl (λ d p, assign_class p.1 d p.2) d
        ((λ k, (k, np_where_eq cip_ranks k)) <$> ks) !! a
  = match cip_ranks !! a with
    | Some r => if bool_decide (r ∈ ks) then Some (py_str r) else d !! a
    | None => d !! a
    end.
Proof.
  revert d. induction ks as [|k ks IH]; intros d.
  - destruct (cip_ranks !! a); [|done].
    case_bool_decide as Hin; [by apply elem_of_nil in Hin|done].
  - cbn [fmap list_fmap foldl]. rewrite IH. cbn [fst snd].
    rewrite assign_class_lookup.
    destruct (cip_ranks !! a) as [r|] eqn:Ha.
    + destruct (decide (r ∈ ks)) as [Hks|Hks].
      * rewrite (bool_decide_eq_true_2 (r ∈ ks)) by done.
        rewrite bool_decide_eq_true_2; [done|]. by right.
      * rewrite (bool_decide_eq_false_2 (r ∈ ks)) by done.
        destruct (decide (r = k)) as [->|Hne].
        -- rewrite (bool_decide_eq_true_2 (a ∈ _)) by (by apply elem_of_np_where_eq).
           rewrite bool_decide_eq_true_2; [done|]. by left.
        -- rewrite (bool_decide_eq_false_2 (a ∈ _)).
           2:{ rewrite elem_of_np_where_eq. congruence. }
           rewrite bool_decide_eq_false_2; [done|].
           intros [?|?]%elem_of_cons; done.
    + rewrite bool_decide_eq_false_2; [done|].
      rewrite elem_of_np_where_eq. congruence.
Qed.

(** What [classify] computes on any non-empty rank array. *)
Lemma classify_nonempty (cip_ranks : list Z) :
  cip_ranks ≠ [] →
  ∃ d, classify cip_ranks = Ok d
     ∧ ∀ a : nat, d !! a = cip_ranks !! a ≫= label_of_rank.
Proof.
  intros Hne. destruct (py_max_spec cip_ranks Hne) as (m & Hmax & Hin & Hall).
  unfold classify, symmetry_classes. rewrite Hmax. simpl.
  eexists. split; [reflexivity|]. intros a.
  unfold classes_to_dict. rewrite py_enumerate_range, classes_fold_lookup.
  rewrite lookup_empty. destruct (cip_ranks !! a) as [r|] eqn:Ha; simpl; [|done].
  unfold label_of_rank.
  assert (r ≤ m) as Hrm.
  { rewrite Forall_forall in Hall. apply Hall. by eapply list_elem_of_lookup_2. }
  destruct (decide (0 ≤ r)) as [Hr|Hr].
  - rewrite !bool_decide_eq_true_2; [done|done|]. apply elem_of_py_range. lia.
  - rewrite !bool_decide_eq_false_2; [done|done|]. rewrite elem_of_py_range. lia.
Qed.

Lemma classify_empty : classify [] = Raise ValueError.
Proof. reflexivity. Qed.

Lemma rank_precondition_nonempty (cip_ranks : list Z) :
  rank_precondition cip_ranks → cip_ranks ≠ [].
Proof. intros [Hlen _] ->. simpl in Hlen. lia. Qed.

(** Under the precondition every atom gets the decimal string of its rank. *)
Lemma classify_precondition (cip_ranks : list Z) :
  rank_precondition cip_ranks →
  ∃ d, classify cip_ranks = Ok d
     ∧ ∀ a : nat, d !! a = py_str <$> cip_ranks !! a.
Proof.
  intros Hpre. destruct (classify_nonempty cip_ranks) as (d & Hd & Hlook).
  { by apply rank_precondition_nonempty. }
  exists d. split; [done|]. intros a. rewrite Hlook.
  destruct (cip_ranks !! a) as [r|] eqn:Ha; simpl; [|done].
  unfold label_of_rank. rewrite bool_decide_eq_true_2; [done|].
  destruct Hpre as [_ Hall]. rewrite Forall_forall in Hall.
  apply Hall. by eapply list_elem_of_lookup_2.
Qed.

(** ** The classifier inside [find_symmetry_classes] *)

Lemma comprehension_ranks (atom_list : list Atom) (cip_ranks : list Z) :
  cip_rank <$> atom_list = Some <$> cip_ranks →
  comprehension GetProp_CIPRank atom_list = Ok cip_ranks.
Proof.
  revert cip_ranks.
  induction atom_list as [|atom rest IH]; intros [|r ranks] Heq; try done.
  injection Heq as Hr Hrest.
  assert (GetProp_CIPRank atom = Ok r) as Hget.
  { unfold GetProp_CIPRank. by rewrite Hr. }
  cbn [comprehension]. rewrite Hget.
  cbn [mbind result_bind]. rewrite (IH ranks Hrest). done.
Qed.

Lemma comprehension_ranks_inv (atom_list : list Atom) (cip_ranks : list Z) :
  comprehension GetProp_CIPRank atom_list = Ok cip_ranks →
  cip_rank <$> atom_list = Some <$> cip_ranks.
Proof.
  revert cip_ranks. induction atom_list as [|atom rest IH]; intros ranks Heq.
  - by simplify_eq/=.
  - cbn [comprehension] in Heq.
    destruct (GetProp_CIPRank atom) as [r|] eqn:Hget;
      cbn [mbind result_bind] in Heq; [|done].
    destruct (comprehension GetProp_CIPRank rest) as [rs|] eqn:Hrest;
      cbn [mbind result_bind] in Heq; [|done].
    injection Heq as <-. unfold GetProp_CIPRank in Hget.
    destruct (cip_rank atom) as [r'|] eqn:Hr; [|done].
    injection Hget as ->. cbn [fmap list_fmap]. rewrite Hr. f_equal.
    by apply IH.
Qed.

(** On a molecule whose atoms already carry ranks the method is the
    classifier applied to those ranks, and the molecule is left alone. *)
Lemma find_symmetry_classes_ranked `{Toolkit} (mol : Molecule) (cip_ranks : list Z) :
  carries_ranks mol cip_ranks → cip_ranks ≠ [] →
  find_symmetry_classes mol = (classify cip_ranks, mol).
Proof.
  intros Hcarry Hne. unfold find_symmetry_classes, GetAtomWithIdx.
  unfold carries_ranks in Hcarry.
  destruct cip_ranks as [|r ranks]; [done|].
  destruct (atoms mol) as [|atom rest] eqn:Hatoms; [done|].
  injection Hcarry as Hr Hrest.
  cbn [lookup list_lookup]. unfold HasProp_CIPRank. rewrite Hr.
  cbn [negb]. rewrite Hatoms.
  rewrite (comprehension_ranks (atom :: rest) (r :: ranks)); [done|].
  cbn [fmap list_fmap]. rewrite Hr. f_equal. exact Hrest.
Qed.

(** ** Properties of the symmetry classifier *)

Lemma rank_precondition_intro (cip_ranks : list Z) :
  cip_ranks ≠ [] → forallb (λ r, bool_decide (0 ≤ r)) cip_ranks = true →
  rank_precondition cip_ranks.
Proof.
  intros Hne Hall. split.
  - destruct cip_ranks; [done|simpl; lia].
  - apply Forall_forall. intros r Hin.
    rewrite forallb_forall in Hall.
    apply list_elem_of_In, Hall in Hin. by apply bool_decide_eq_true in Hin.
Qed.

(** C1: for every rank array meeting the precondition the classifier
    returns a mapping in which every atom index below the number of atoms
    has a label, and two such indices have the same label exactly when
    their ranks are equal. *)
Theorem C1_same_label_iff_same_rank (cip_ranks : list Z) :
  rank_precondition cip_ranks →
  ∃ d, classify cip_ranks = Ok d
     ∧ ∀ i j : nat,
         (i < length cip_ranks)%nat → (j < length cip_ranks)%nat →
         ∃ label_i label_j rank_i rank_j,
           d !! i = Some label_i ∧ d !! j = Some label_j
           ∧ cip_ranks !! i = Some rank_i ∧ cip_ranks !! j = Some rank_j
           ∧ (label_i = label_j ↔ rank_i = rank_j).
Proof.
  intros Hpre. destruct (classify_precondition cip_ranks Hpre) as (d & Hd & Hlook).
  exists d. split; [done|]. intros i j Hi Hj.
  destruct (lookup_lt_is_Some_2 cip_ranks i Hi) as [ri Hri].
  destruct (lookup_lt_is_Some_2 cip_ranks j Hj) as [rj Hrj].
  exists (py_str ri), (py_str rj), ri, rj.
  split; [by rewrite Hlook, Hri|]. split; [by rewrite Hlook, Hrj|].
  split; [done|]. split; [done|]. split.
  - apply py_str_inj.
  - by intros ->.
Qed.

Lemma C1_same_label_iff_same_rank_witness :
  rank_precondition [0; 1; 0; 2; 1]
  ∧ ∃ d, classify [0; 1; 0; 2; 1] = Ok d
       ∧ ∀ i j : nat,
           (i < 5)%nat → (j < 5)%nat →
           ∃ label_i label_j rank_i rank_j,
             d !! i = Some label_i ∧ d !! j = Some label_j
             ∧ [0; 1; 0; 2; 1] !! i = Some rank_i ∧ [0; 1; 0; 2; 1] !! j = Some rank_j
             ∧ (label_i = label_j ↔ rank_i = rank_j).
Proof.
  assert (rank_precondition [0; 1; 0; 2; 1]) as Hpre.
  { apply rank_precondition_intro; [done|reflexivity]. }
  split; [exact Hpre|].
  exact (C1_same_label_iff_same_rank [0; 1; 0; 2; 1] Hpre).
Defined.

(** C2, as the code has it: the bucket list holds one bucket for every
    rank from 0 to the largest rank, the empty ones included, so the
    position of a bucket is its rank and every atom is labelled with the
    decimal string of its own raw rank. The labels are dense only when
    the ranks are. A rank array with gaps is classified without error. *)
Theorem C2_label_is_raw_rank (cip_ranks : list Z) :
  rank_precondition cip_ranks →
  ∃ classes d,
    symmetry_classes cip_ranks = Ok classes
    ∧ classify cip_ranks = Ok d
    ∧ ∀ (i : nat) (r : Z), cip_ranks !! i = Some r →
        classes !! Z.to_nat r = Some (np_where_eq cip_ranks r)
        ∧ i ∈ np_where_eq cip_ranks r
        ∧ d !! i = Some (py_str r).
Proof.
  intros Hpre. destruct (classify_precondition cip_ranks Hpre) as (d & Hd & Hlook).
  destruct (py_max_spec cip_ranks) as (m & Hmax & Hin & Hall).
  { by apply rank_precondition_nonempty. }
  exists (np_where_eq cip_ranks <$> py_range (m + 1)), d.
  split; [unfold symmetry_classes; by rewrite Hmax|]. split; [done|].
  intros i r Hi. split; [|split].
  - assert (0 ≤ r ≤ m) as Hr.
    { split.
      - destruct Hpre as [_ Hpos]. rewrite Forall_forall in Hpos.
        apply Hpos. by eapply list_elem_of_lookup_2.
      - rewrite Forall_forall in Hall. apply Hall.
        by eapply list_elem_of_lookup_2. }
    rewrite list_lookup_fmap. unfold py_range.
    rewrite (lookup_seqZ_lt 0 (m + 1) (Z.to_nat r)) by lia.
    simpl. do 2 f_equal. lia.
  - by apply elem_of_np_where_eq.
  - by rewrite Hlook, Hi.
Qed.

Lemma C2_label_is_raw_rank_witness :
  rank_precondition [5; 5; 5]
  ∧ ∃ classes d,
      symmetry_classes [5; 5; 5] = Ok classes
      ∧ classify [5; 5; 5] = Ok d
      ∧ ∀ (i : nat) (r : Z), [5; 5; 5] !! i = Some r →
          classes !! Z.to_nat r = Some (np_where_eq [5; 5; 5] r)
          ∧ i ∈ np_where_eq [5; 5; 5] r
          ∧ d !! i = Some (py_str r).
Proof.
  assert (rank_precondition [5; 5; 5]) as Hpre.
  { apply rank_precondition_intro; [done|reflexivity]. }
  split; [exact Hpre|].
  exact (C2_label_is_raw_rank [5; 5; 5] Hpre).
Defined.

(** C2 as worded fails: for the ranks [5, 5, 5], which meet the
    precondition, the three atoms get the label "5", not the dense
    label "0" that numbering the non-empty buckets would give. *)
Lemma C2_dense_labels_counterexample :
  rank_precondition [5; 5; 5]
  ∧ classify [5; 5; 5]
    = Ok (<[0%nat:="5"]> (<[1%nat:="5"]> (<[2%nat:="5"]> ∅)))
  ∧ dense_classify [5; 5; 5]
    = Ok (<[0%nat:="0"]> (<[1%nat:="0"]> (<[2%nat:="0"]> ∅)))
  ∧ classify [5; 5; 5] ≠ dense_classify [5; 5; 5]
  ∧ ¬ (∃ d, classify [5; 5; 5] = Ok d ∧ d !! 0%nat = Some "0").
Proof.
  split; [apply rank_precondition_intro; [done|reflexivity]|].
  split; [vm_compute; reflexivity|].
  split; [vm_compute; reflexivity|].
  split.
  - intros Heq. vm_compute in Heq. discriminate Heq.
  - intros (d & Hd & H0). vm_compute in Hd. injection Hd as <-.
    vm_compute in H0. discriminate H0.
Qed.

(** C3: for every rank array of length N >= 1 without negative values the
    classifier returns a mapping whose key set is exactly {0, ..., N-1};
    it has N entries. *)
Theorem C3_keys_are_atom_indices (cip_ranks : list Z) :
  rank_precondition cip_ranks →
  ∃ d, classify cip_ranks = Ok d
     ∧ dom d = set_seq 0 (length cip_ranks)
     ∧ size d = length cip_ranks.
Proof.
  intros Hpre. destruct (classify_precondition cip_ranks Hpre) as (d & Hd & Hlook).
  exists d. split; [done|].
  assert (dom d = set_seq (C:=gset nat) 0 (length cip_ranks)) as Hdom.
  { apply set_eq. intros a.
    rewrite elem_of_dom, elem_of_set_seq, Hlook, fmap_is_Some.
    rewrite lookup_lt_is_Some. lia. }
  split; [done|].
  rewrite <-size_dom, Hdom. apply size_set_seq.
Qed.

Lemma C3_keys_are_atom_indices_witness :
  rank_precondition [0; 1; 0; 2; 1]
  ∧ ∃ d, classify [0; 1; 0; 2; 1] = Ok d
       ∧ dom d = set_seq 0 5
       ∧ size d = 5%nat.
Proof.
  assert (rank_precondition [0; 1; 0; 2; 1]) as Hpre.
  { apply rank_precondition_intro; [done|reflexivity]. }
  split; [exact Hpre|].
  exact (C3_keys_are_atom_indices [0; 1; 0; 2; 1] Hpre).
Defined.

(** C5, as the code has it: the classifier makes no check of its
    precondition. It raises exactly when the rank array is empty, both
    as the function of the rank array and as the method called on a
    molecule that carries the array (an empty array means a molecule
    without atoms). An array that meets the precondition is classified,
    and so is a non-empty array with negative ranks: the atoms of negative
    rank are left out of the mapping. *)
Theorem C5_raises_iff_empty `{Toolkit} (cip_ranks : list Z) :
  (raises (classify cip_ranks) ↔ cip_ranks = [])
  ∧ (∀ mol, carries_ranks mol cip_ranks →
       (raises (find_symmetry_classes mol).1 ↔ cip_ranks = []))
  ∧ (rank_precondition cip_ranks → is_Ok (classify cip_ranks))
  ∧ (∀ d (i : nat) (r : Z),
       classify cip_ranks = Ok d → cip_ranks !! i = Some r → r < 0 →
       d !! i = None).
Proof.
  assert (raises (classify cip_ranks) ↔ cip_ranks = []) as Hraises.
  { split.
    - intros [e He]. destruct (decide (cip_ranks = [])) as [|Hne]; [done|].
      destruct (classify_nonempty cip_ranks Hne) as (d & Hd & _). congruence.
    - intros ->. by exists ValueError. }
  split; [exact Hraises|]. split; [|split].
  - intros mol Hcarry. destruct (decide (cip_ranks = [])) as [->|Hne].
    + split; [done|]. intros _.
      unfold carries_ranks in Hcarry. apply fmap_nil_inv in Hcarry.
      unfold find_symmetry_classes, GetAtomWithIdx. rewrite Hcarry.
      by exists RangeError.
    + rewrite (find_symmetry_classes_ranked mol cip_ranks Hcarry Hne).
      exact Hraises.
  - intros Hpre. destruct (classify_precondition cip_ranks Hpre) as (d & Hd & _).
    by exists d.
  - intros d i r Hd Hi Hr.
    destruct (classify_nonempty cip_ranks) as (d' & Hd' & Hlook).
    { intros ->. done. }
    assert (d' = d) as -> by congruence.
    rewrite Hlook, Hi. simpl. unfold label_of_rank.
    rewrite bool_decide_eq_false_2; [done|lia].
Qed.

(** C5 as worded fails: the ranks [-3, 2] break the precondition, and
    the classifier returns a mapping (without atom 0) instead of raising,
    also when it is called as the method on a molecule carrying them. *)
Lemma C5_negative_rank_counterexample :
  ¬ rank_precondition [-3; 2]
  ∧ classify [-3; 2] = Ok {[ 1%nat := "2" ]}
  ∧ ¬ raises (classify [-3; 2])
  ∧ @find_symmetry_classes stub_toolkit (ranked_molecule [-3; 2])
    = (Ok {[ 1%nat := "2" ]}, ranked_molecule [-3; 2]).
Proof.
  split; [|split; [|split]].
  - intros [_ Hall]. apply Forall_cons in Hall as [Hneg _]. lia.
  - vm_compute. reflexivity.
  - intros [e He]. vm_compute in He. discriminate He.
  - vm_compute. reflexivity.
Qed.

(** ** Calls of [find_symmetry_classes] on a molecule *)

(** A call that returns a mapping leaves the molecule in a state on
    which the next call returns the same mapping and changes nothing. *)
Lemma find_symmetry_classes_again `{Toolkit} (mol mol1 : Molecule) (d : gmap nat string) :
  find_symmetry_classes mol = (Ok d, mol1) →
  find_symmetry_classes mol1 = (Ok d, mol1).
Proof.
  unfold find_symmetry_classes at 1.
  destruct (GetAtomWithIdx mol 0) as [first|e]; [|done].
  set (mol' := if negb (HasProp_CIPRank first) then AssignStereochemistry mol else mol).
  intros Hcall. injection Hcall as Hres Hmol. subst mol1.
  destruct (comprehension GetProp_CIPRank (atoms mol')) as [cip_ranks|e] eqn:Hranks;
    cbn [mbind result_bind] in Hres; [|done].
  rewrite (find_symmetry_classes_ranked mol' cip_ranks).
  - by rewrite Hres.
  - by apply comprehension_ranks_inv.
  - intros ->. by rewrite classify_empty in Hres.
Qed.

(** C9: for every rank array meeting the precondition there is one
    mapping that the classifier returns for it, and two calls in a row on
    a molecule carrying that array both return this mapping, the same
    label for every atom index. *)
Theorem C9_two_calls_same_mapping `{Toolkit} (cip_ranks : list Z) :
  rank_precondition cip_ranks →
  ∃ d, classify cip_ranks = Ok d
     ∧ ∀ mol, carries_ranks mol cip_ranks →
         find_symmetry_classes_twice mol = (Ok d, Ok d, mol).
Proof.
  intros Hpre. destruct (classify_precondition cip_ranks Hpre) as (d & Hd & _).
  exists d. split; [done|]. intros mol Hcarry.
  pose proof (find_symmetry_classes_ranked mol cip_ranks Hcarry
                (rank_precondition_nonempty cip_ranks Hpre)) as Hcall.
  unfold find_symmetry_classes_twice. rewrite Hcall. rewrite Hcall.
  by rewrite Hd.
Qed.

Lemma carries_ranks_ranked_molecule (cip_ranks : list Z) :
  carries_ranks (ranked_molecule cip_ranks) cip_ranks.
Proof.
  unfold carries_ranks, ranked_molecule. simpl.
  rewrite <-list_fmap_compose. done.
Qed.

Lemma C9_two_calls_same_mapping_witness :
  rank_precondition [0; 1; 0; 2; 1]
  ∧ ∃ d, classify [0; 1; 0; 2; 1] = Ok d
       ∧ ∀ mol, carries_ranks mol [0; 1; 0; 2; 1] →
           @find_symmetry_classes_twice stub_toolkit mol = (Ok d, Ok d, mol).
Proof.
  assert (rank_precondition [0; 1; 0; 2; 1]) as Hpre.
  { apply rank_precondition_intro; [done|reflexivity]. }
  split; [exact Hpre|].
  exact (@C9_two_calls_same_mapping stub_toolkit [0; 1; 0; 2; 1] Hpre).
Defined.

(** C4, as the code has it: the method leaves the molecule unchanged when
    its first atom already carries a rank, and when it has no atom at all
    (the call then raises); when the first atom carries no rank the method
    runs the stereochemistry assignment of the toolkit on the caller's
    molecule, which is changed by it. *)
Theorem C4_molecule_changed_only_by_rank_assignment `{Toolkit} (mol : Molecule) :
  (atoms mol = [] → find_symmetry_classes mol = (Raise RangeError, mol))
  ∧ (∀ first, atoms mol !! 0%nat = Some first → is_Some (cip_rank first) →
       (find_symmetry_classes mol).2 = mol)
  ∧ (∀ first, atoms mol !! 0%nat = Some first → cip_rank first = None →
       (find_symmetry_classes mol).2 = AssignStereochemistry mol
       ∧ (find_symmetry_classes mol).2 ≠ mol).
Proof.
  unfold find_symmetry_classes, GetAtomWithIdx. split; [|split].
  - intros ->. done.
  - intros first -> [r Hr]. unfold HasProp_CIPRank. by rewrite Hr.
  - intros first Hfirst Hnone. rewrite Hfirst.
    unfold HasProp_CIPRank. rewrite Hnone. cbn [negb snd].
    split; [done|]. intros Heq.
    pose proof (AssignStereochemistry_ranks mol) as Hall.
    rewrite Heq in Hall. rewrite Forall_forall in Hall.
    destruct (Hall first) as [r Hr]; [by eapply list_elem_of_lookup_2|].
    congruence.
Qed.

(** C4 as worded fails: on a one-atom molecule without a rank the call
    returns the mapping and leaves the molecule with a rank on its atom. *)
Lemma C4_no_side_effect_counterexample :
  @find_symmetry_classes stub_toolkit one_atom
  = (Ok {[ 0%nat := "0" ]}, mkMolecule None [mkAtom "C" (Some 0)] [] [])
  ∧ ¬ (∀ (toolkit : Toolkit) (mol : Molecule),
         (@find_symmetry_classes toolkit mol).2 = mol).
Proof.
  split; [vm_compute; reflexivity|].
  intros Hall. specialize (Hall stub_toolkit one_atom).
  vm_compute in Hall. discriminate Hall.
Qed.

(** ** [add_conformer] *)

Lemma SetAtomPosition_next (conformer : Conformer) (p : Point3D) :
  SetAtomPosition conformer (length (positions conformer)) p
  = mkConformer (conf_id conformer) (positions conformer ++ [p]).
Proof.
  unfold SetAtomPosition. f_equal.
  replace (S (length (positions conformer)) - length (positions conformer))%nat
    with 1%nat by lia.
  rewrite insert_app_r_alt by lia.
  by rewrite Nat.sub_diag.
Qed.

Lemma set_positions_from (coords : list (list float64)) (points : list Point3D)
    (conformer : Conformer) :
  Forall2 (λ coord p, make_Point3D coord = Ok p) coords points →
  set_positions conformer
    (zip (seqZ (Z.of_nat (length (positions conformer))) (Z.of_nat (length coords)))
         coords)
  = Ok (mkConformer (conf_id conformer) (positions conformer ++ points)).
Proof.
  intros Hall. revert conformer.
  induction Hall as [|coord p coords points Hp Hall IH]; intros conformer.
  - simpl. rewrite app_nil_r. by destruct conformer.
  - cbn [length]. rewrite seqZ_cons by lia. cbn [zip_with set_positions].
    rewrite Hp. cbn [mbind result_bind].
    rewrite Nat2Z.id, SetAtomPosition_next.
    specialize (IH (mkConformer (conf_id conformer) (positions conformer ++ [p]))).
    cbn [positions conf_id] in IH. rewrite length_app in IH. cbn [length] in IH.
    replace (Z.succ (Z.of_nat (length (positions conformer))))
      with (Z.of_nat (length (positions conformer) + 1)) by lia.
    replace (Z.pred (Z.of_nat (S (length coords))))
      with (Z.of_nat (length coords)) by lia.
    rewrite IH. by rewrite <-app_assoc.
Qed.

Lemma make_Point3D_three (coord : list float64) :
  length coord = 3%nat →
  ∃ p, make_Point3D coord = Ok p ∧ coord = [px p; py p; pz p].
Proof.
  destruct coord as [|x [|y [|z [|? ?]]]]; try done.
  intros _. by exists (mkPoint3D x y z).
Qed.

Lemma fresh_conformer_id_above (mol : Molecule) (conf : Conformer) :
  conf ∈ conformers mol → conf_id conf < fresh_conformer_id mol.
Proof.
  unfold fresh_conformer_id.
  induction (conformers mol) as [|c confs IH]; intros Hin.
  - by apply elem_of_nil in Hin.
  - cbn [foldr]. apply elem_of_cons in Hin as [->|Hin]; [lia|].
    specialize (IH Hin). lia.
Qed.

(** C6, as the code has it: for a coordinate sequence with one 3-D
    coordinate per atom, the method appends to the molecule a new
    conformer that holds these coordinates in order and has a fresh
    identifier, and it returns the molecule itself, not the index of the
    new conformer. *)
Theorem C6_add_conformer_returns_molecule (mol : Molecule)
    (conformer_coordinates : list (list float64)) :
  length conformer_coordinates = length (atoms mol) →
  Forall (λ coord, length coord = 3%nat) conformer_coordinates →
  ∃ points,
    Forall2 (λ coord p, coord = [px p; py p; pz p]) conformer_coordinates points
    ∧ (fresh_conformer_id mol ∉ conf_id <$> conformers mol)
    ∧ (let mol' :=
         mkMolecule (mol_name mol) (atoms mol) (bonds mol)
           (conformers mol ++ [mkConformer (fresh_conformer_id mol) points]) in
       add_conformer mol conformer_coordinates = (Ok (PyMol mol'), mol')).
Proof.
  intros Hlen Hthree.
  assert (∃ points,
    Forall2 (λ coord p, make_Point3D coord = Ok p ∧ coord = [px p; py p; pz p])
            conformer_coordinates points) as [points Hpoints].
  { clear Hlen. induction Hthree as [|coord coords Hc _ [points IH]].
    - exists []. constructor.
    - destruct (make_Point3D_three coord Hc) as (p & Hp & Hcoord).
      exists (p :: points). by constructor. }
  exists points. split; [|split].
  - eapply Forall2_impl; [exact Hpoints|]. by intros ?? [_ ?].
  - intros (conf & Hid & Hin)%list_elem_of_fmap.
    apply fresh_conformer_id_above in Hin. lia.
  - cbn zeta. unfold add_conformer, py_enumerate.
    pose proof (set_positions_from conformer_coordinates points new_Conformer) as Hset.
    cbn [new_Conformer positions conf_id length app] in Hset.
    change (Z.of_nat 0) with 0 in Hset.
    rewrite Hset.
    2:{ eapply Forall2_impl; [exact Hpoints|]. by intros ?? [? _]. }
    unfold AddConformer. cbn [positions conf_id].
    rewrite decide_True; [done|].
    apply Forall2_length in Hpoints. lia.
Qed.

Lemma C6_add_conformer_returns_molecule_witness :
  let conformer_coordinates := [[0; 0; 0]; [one_float; 0; 0]] in
  length conformer_coordinates = length (atoms two_atoms)
  ∧ Forall (λ coord, length coord = 3%nat) conformer_coordinates
  ∧ ∃ points,
      Forall2 (λ coord p, coord = [px p; py p; pz p]) conformer_coordinates points
      ∧ (fresh_conformer_id two_atoms ∉ conf_id <$> conformers two_atoms)
      ∧ (let mol' :=
           mkMolecule (mol_name two_atoms) (atoms two_atoms) (bonds two_atoms)
             (conformers two_atoms
              ++ [mkConformer (fresh_conformer_id two_atoms) points]) in
         add_conformer two_atoms conformer_coordinates = (Ok (PyMol mol'), mol')).
Proof.
  assert (length [[0; 0; 0]; [one_float; 0; 0]] = length (atoms two_atoms)) as Hlen
    by reflexivity.
  assert (Forall (λ coord : list float64, length coord = 3%nat)
                 [[0; 0; 0]; [one_float; 0; 0]]) as Hthree
    by (repeat constructor).
  split; [exact Hlen|]. split; [exact Hthree|].
  exact (C6_add_conformer_returns_molecule two_atoms _ Hlen Hthree).
Defined.

(** C6 as worded fails: on a two-atom molecule the call with the
    coordinates (0,0,0) and (1,0,0) appends conformer 0 and returns the
    molecule, which is no conformer index. *)
Lemma C6_returns_index_counterexample :
  let conformer_coordinates := [[0; 0; 0]; [one_float; 0; 0]] in
  let mol' :=
    mkMolecule (Some "H2") [mkAtom "H" None; mkAtom "H" None] [(0%nat, 1%nat)]
      [mkConformer 0 [mkPoint3D 0 0 0; mkPoint3D one_float 0 0]] in
  length conformer_coordinates = length (atoms two_atoms)
  ∧ add_conformer two_atoms conformer_coordinates = (Ok (PyMol mol'), mol')
  ∧ ∀ index : Z, (add_conformer two_atoms conformer_coordinates).1 ≠ Ok (PyInt index).
Proof.
  cbn zeta. split; [reflexivity|]. split; [vm_compute; reflexivity|].
  intros index Heq. vm_compute in Heq. discriminate Heq.
Qed.

(** ** The parse dispatcher and the optimiser front end *)

Ltac unfold_M :=
  unfold mbind, M_bind, mret, M_ret, emit, py_input, raise, lift; cbn.

Lemma extends_refl (P : event → Prop) (w : world) : extends P w w.
Proof. exists []. split; [by rewrite app_nil_r|constructor]. Qed.

Lemma extends_filter (P : event → Prop) (keep : event → bool) (w w' : world) :
  extends P w w' → (∀ ev, P ev → keep ev = false) →
  filter (λ ev, keep ev = true) (trace w') = filter (λ ev, keep ev = true) (trace w).
Proof.
  intros (evs & -> & Hall) Hkeep. rewrite filter_app.
  assert (filter (λ ev, keep ev = true) evs = []) as ->.
  { induction Hall as [|ev evs Hev _ IH]; [done|].
    rewrite filter_cons_False; [done|]. rewrite (Hkeep ev Hev). done. }
  by rewrite app_nil_r.
Qed.

Lemma extends_elem_of (P : event → Prop) (w w' : world) (ev : event) :
  extends P w w' → ev ∈ trace w' → ev ∉ trace w → P ev.
Proof.
  intros (evs & -> & Hall) Hin Hnin.
  apply elem_of_app in Hin as [Hin|Hin]; [done|].
  rewrite Forall_forall in Hall. by apply Hall.
Qed.

(** The SMILES path prompts, parses and embeds; it reads no file and
    calls no optimiser. Its first event is the parse of the string. *)
Lemma smiles_to_rdkit_mol_trace `{Toolkit} (smiles : string) (name : option string)
    (w : world) :
  ∃ rest,
    trace (smiles_to_rdkit_mol smiles name w).2
    = trace w ++ SmilesParsed smiles :: rest
    ∧ Forall (λ ev, is_file_read ev = false ∧ is_optimiser_call ev = false)
             (SmilesParsed smiles :: rest).
Proof.
  unfold smiles_to_rdkit_mol. unfold_M.
  destruct name as [name|]; cbn.
  - destruct (MolFromSmiles smiles) as [mol|]; cbn.
    + destruct (SanitizeMol _); cbn;
        (eexists; split; [by rewrite <-app_assoc|by repeat constructor]).
    + eexists. split; [done|by repeat constructor].
  - destruct (stdin w) as [|line lines]; cbn.
    + eexists. split; [by rewrite <-app_assoc|by repeat constructor].
    + destruct (MolFromSmiles smiles) as [mol|]; cbn.
      * destruct (SanitizeMol _); cbn;
          (eexists; split; [by rewrite <-!app_assoc|by repeat constructor]).
      * eexists. split; [by rewrite <-app_assoc|by repeat constructor].
Qed.

Lemma read_file_run (format : file_format)
    (reader : string → result (option Molecule)) (fname : string) (w : world) :
  trace (read_file format reader fname w).2 = trace w ++ [FileRead format fname].
Proof.
  unfold read_file. unfold_M. destruct (reader fname) as [[mol|]|e]; done.
Qed.

(** The dispatcher calls no optimiser. *)
Lemma mol_input_to_rdkit_mol_no_optimiser `{Toolkit} (mol_input : MolInput)
    (name : option string) (w : world) :
  extends (λ ev, is_optimiser_call ev = false) w
          (mol_input_to_rdkit_mol mol_input name w).2.
Proof.
  destruct mol_input as [smiles|path]; cbn [mol_input_to_rdkit_mol].
  - destruct (smiles_to_rdkit_mol_trace smiles name w) as (rest & Htrace & Hall).
    eexists. split; [exact Htrace|].
    eapply Forall_impl; [exact Hall|]. by intros ev [_ ?].
  - repeat case_decide;
      try (eexists; split; [apply read_file_run|by repeat constructor]).
    apply extends_refl.
Qed.

(** C7: for every path whose suffix is none of ".pdb", ".mol2" and
    ".mol" the dispatcher returns [None] without raising (and without
    touching the world); a string is handed to the SMILES path. *)
Theorem C7_unsupported_suffix_yields_None `{Toolkit} (path : Path) :
  path_suffix path ≠ ".pdb" → path_suffix path ≠ ".mol2" → path_suffix path ≠ ".mol" →
  (∀ name w, mol_input_to_rdkit_mol (InputPath path) name w = (Ok PyNone, w))
  ∧ (∀ smiles name w,
       mol_input_to_rdkit_mol (InputStr smiles) name w
       = smiles_to_rdkit_mol smiles name w).
Proof.
  intros Hpdb Hmol2 Hmol. split; [|done].
  intros name w. cbn [mol_input_to_rdkit_mol].
  by rewrite !decide_False by done.
Qed.

Lemma C7_unsupported_suffix_yields_None_witness :
  let path := mkPath "notes.txt" ".txt" "notes" in
  path_suffix path ≠ ".pdb" ∧ path_suffix path ≠ ".mol2" ∧ path_suffix path ≠ ".mol"
  ∧ (∀ name w, @mol_input_to_rdkit_mol stub_toolkit (InputPath path) name w
               = (Ok PyNone, w))
  ∧ (∀ smiles name w,
       @mol_input_to_rdkit_mol stub_toolkit (InputStr smiles) name w
       = @smiles_to_rdkit_mol stub_toolkit smiles name w).
Proof.
  cbn zeta.
  assert (path_suffix (mkPath "notes.txt" ".txt" "notes") ≠ ".pdb") as Hpdb by done.
  assert (path_suffix (mkPath "notes.txt" ".txt" "notes") ≠ ".mol2") as Hmol2 by done.
  assert (path_suffix (mkPath "notes.txt" ".txt" "notes") ≠ ".mol") as Hmol by done.
  split; [exact Hpdb|]. split; [exact Hmol2|]. split; [exact Hmol|].
  exact (@C7_unsupported_suffix_yields_None stub_toolkit _ Hpdb Hmol2 Hmol).
Defined.

Lemma optimisers_unknown `{Toolkit} (ff : string) :
  ff ≠ "MMF" → ff ≠ "UFF" → optimisers !! ff = None.
Proof.
  intros Hmmf Huff. unfold optimisers.
  rewrite !lookup_insert_ne by done. apply lookup_empty.
Qed.

(** C8: with a selector other than "MMF" and "UFF" the call does not
    succeed: it ends in an exception, and no optimiser has been called by
    then. The world is as the parse of the input left it, and when that
    parse returned, the exception is the [KeyError] of the selector. *)
Theorem C8_unknown_selector_raises `{Toolkit} (filename : MolInput) (ff : string)
    (w : world) :
  ff ≠ "MMF" → ff ≠ "UFF" →
  ∃ e w',
    mm_optimise filename ff w = (Raise e, w')
    ∧ optimiser_calls w' = optimiser_calls w
    ∧ w' = (mol_input_to_rdkit_mol filename None w).2
    ∧ (is_Ok (mol_input_to_rdkit_mol filename None w).1 → e = KeyError ff).
Proof.
  intros Hmmf Huff.
  pose proof (mol_input_to_rdkit_mol_no_optimiser filename None w) as Hext.
  assert (optimiser_calls (mol_input_to_rdkit_mol filename None w).2
          = optimiser_calls w) as Hcalls.
  { unfold optimiser_calls.
    apply (extends_filter _ is_optimiser_call _ _ Hext). done. }
  unfold mm_optimise. unfold mbind at 1. unfold M_bind at 1.
  destruct (mol_input_to_rdkit_mol filename None w) as [[mol|e] w1] eqn:Hparse;
    cbn [fst snd] in *.
  - rewrite (optimisers_unknown ff Hmmf Huff).
    exists (KeyError ff), w1. done.
  - exists e, w1. split; [done|]. split; [done|]. split; [done|].
    by intros [? ?].
Qed.

Lemma C8_unknown_selector_raises_witness :
  let filename := InputPath (mkPath "ethane.pdb" ".pdb" "ethane") in
  "AMBER" ≠ "MMF" ∧ "AMBER" ≠ "UFF"
  ∧ ∃ e w',
      @mm_optimise stub_toolkit filename "AMBER" fresh_world = (Raise e, w')
      ∧ optimiser_calls w' = optimiser_calls fresh_world
      ∧ w' = (@mol_input_to_rdkit_mol stub_toolkit filename None fresh_world).2
      ∧ (is_Ok (@mol_input_to_rdkit_mol stub_toolkit filename None fresh_world).1 →
         e = KeyError "AMBER").
Proof.
  cbn zeta.
  assert ("AMBER" ≠ "MMF") as Hmmf by done.
  assert ("AMBER" ≠ "UFF") as Huff by done.
  split; [exact Hmmf|]. split; [exact Huff|].
  exact (@C8_unknown_selector_raises stub_toolkit _ "AMBER" fresh_world Hmmf Huff).
Defined.

(** The two recognised selectors do run their optimiser. *)
Example mm_optimise_MMF :
  @mm_optimise stub_toolkit (InputPath (mkPath "ethane.pdb" ".pdb" "ethane")) "MMF"
    fresh_world
  = (Ok (PyStr "ethane_rdkit_optimised.pdb"),
     mkWorld [FileRead PDB "ethane.pdb"; OptimiserCalled MMFF;
              FileWritten "ethane_rdkit_optimised.pdb"] ["ethane"]).
Proof. vm_compute. reflexivity. Qed.

Example mm_optimise_AMBER :
  @mm_optimise stub_toolkit (InputPath (mkPath "ethane.pdb" ".pdb" "ethane")) "AMBER"
    fresh_world
  = (Raise (KeyError "AMBER"), mkWorld [FileRead PDB "ethane.pdb"] ["ethane"]).
Proof. vm_compute. reflexivity. Qed.

(** A string that looks like a file name is still parsed as SMILES. *)
Example string_with_pdb_suffix :
  @mol_input_to_rdkit_mol stub_toolkit (InputStr "ethane.pdb") None fresh_world
  = (Ok (PyMol (mkMolecule (Some "ethane") [mkAtom "C" None] [] [])),
     mkWorld [SmilesParsed "ethane.pdb"; Prompted name_prompt; Embedded] []).
Proof. vm_compute. reflexivity. Qed.

(** C10: every string given to the dispatcher, whatever it ends in, is
    handed to the SMILES path: the call is the call of
    [smiles_to_rdkit_mol], it starts by parsing the string as SMILES and
    reads no file. A file is read only for a path, by the reader of its
    suffix. *)
Theorem C10_string_input_is_smiles `{Toolkit} (smiles : string) (name : option string)
    (w : world) :
  mol_input_to_rdkit_mol (InputStr smiles) name w = smiles_to_rdkit_mol smiles name w
  ∧ (∃ rest, trace (mol_input_to_rdkit_mol (InputStr smiles) name w).2
             = trace w ++ SmilesParsed smiles :: rest)
  ∧ file_reads (mol_input_to_rdkit_mol (InputStr smiles) name w).2 = file_reads w
  ∧ (∀ mol_input format fname,
       FileRead format fname ∈ trace (mol_input_to_rdkit_mol mol_input name w).2 →
       FileRead format fname ∉ trace w →
       ∃ path, mol_input = InputPath path
             ∧ fname = path_name path
             ∧ path_suffix path = format_suffix format).
Proof.
  split; [done|]. split; [|split].
  - destruct (smiles_to_rdkit_mol_trace smiles name w) as (rest & Htrace & _).
    by exists rest.
  - destruct (smiles_to_rdkit_mol_trace smiles name w) as (rest & Htrace & Hall).
    unfold file_reads.
    apply (extends_filter (λ ev, is_file_read ev = false ∧ is_optimiser_call ev = false)
                          is_file_read).
    + eexists. split; [exact Htrace|exact Hall].
    + by intros ev [? _].
  - intros [smiles'|path] format fname Hin Hnin.
    + destruct (smiles_to_rdkit_mol_trace smiles' name w) as (rest & Htrace & Hall).
      cbn [mol_input_to_rdkit_mol] in Hin. rewrite Htrace in Hin.
      apply elem_of_app in Hin as [Hin|Hin]; [done|].
      rewrite Forall_forall in Hall. by destruct (Hall _ Hin).
    + exists path. split; [done|]. cbn [mol_input_to_rdkit_mol] in Hin.
      repeat case_decide;
        try (rewrite read_file_run in Hin;
             apply elem_of_app in Hin as [Hin|Hin]; [done|];
             apply list_elem_of_singleton in Hin; by simplify_eq).
      done.
Qed.

(** * Further properties of the methods *)

(** ** The classifier on arbitrary rank arrays *)

Lemma size_set_map_inj {A B} `{Countable A, Countable B} (f : A → B) (X : gset A) :
  Inj (=) (=) f → size (set_map f X : gset B) = size X.
Proof.
  intros Hinj. unfold set_map.
  rewrite size_list_to_set.
  - by rewrite length_fmap.
  - apply NoDup_fmap_2; [done|]. apply NoDup_elements.
Qed.

(** X1: under the precondition the number of distinct labels in the
    mapping is the number of distinct values in the rank array. *)
Theorem X1_label_count_is_distinct_rank_count (cip_ranks : list Z) :
  rank_precondition cip_ranks →
  ∃ d, classify cip_ranks = Ok d
     ∧ size (map_img d : gset string) = size (list_to_set cip_ranks : gset Z).
Proof.
  intros Hpre. destruct (classify_precondition cip_ranks Hpre) as (d & Hd & Hlook).
  exists d. split; [done|].
  assert (map_img d = (set_map py_str (list_to_set cip_ranks : gset Z) : gset string))
    as ->.
  { apply set_eq. intros label.
    rewrite elem_of_map_img, elem_of_map. split.
    - intros [i Hi]. rewrite Hlook in Hi.
      destruct (cip_ranks !! i) as [r|] eqn:Hr; [|done].
      injection Hi as <-. exists r. split; [done|].
      apply elem_of_list_to_set. by eapply list_elem_of_lookup_2.
    - intros (r & -> & Hin). apply elem_of_list_to_set in Hin.
      apply list_elem_of_lookup in Hin as [i Hi].
      exists i. by rewrite Hlook, Hi. }
  apply size_set_map_inj. intros i j. apply py_str_inj.
Qed.

Lemma X1_label_count_is_distinct_rank_count_witness :
  rank_precondition [0; 1; 0; 2; 1]
  ∧ ∃ d, classify [0; 1; 0; 2; 1] = Ok d
       ∧ size (map_img d : gset string)
         = size (list_to_set [0; 1; 0; 2; 1] : gset Z).
Proof.
  assert (rank_precondition [0; 1; 0; 2; 1]) as Hpre.
  { apply rank_precondition_intro; [done|reflexivity]. }
  split; [exact Hpre|].
  exact (X1_label_count_is_distinct_rank_count [0; 1; 0; 2; 1] Hpre).
Defined.

Lemma np_where_eq_from_ge (start : nat) (cip_ranks : list Z) (rank : Z) :
  Forall (λ j, start ≤ j)%nat (np_where_eq_from start cip_ranks rank).
Proof.
  apply Forall_forall. intros j (i & -> & _)%elem_of_np_where_eq_from. lia.
Qed.

Lemma np_where_eq_from_sorted (start : nat) (cip_ranks : list Z) (rank : Z) :
  StronglySorted lt (np_where_eq_from start cip_ranks rank).
Proof.
  revert start. induction cip_ranks as [|r rest IH]; intros start; cbn.
  - constructor.
  - case_bool_decide; [|apply IH].
    constructor; [apply IH|].
    eapply Forall_impl; [apply (np_where_eq_from_ge (S start))|].
    intros j Hj. cbn in Hj. lia.
Qed.

(** X2: for a non-empty rank array the list of classes has one bucket
    for each of 0, ..., max(ranks) (none at all when the maximum is
    negative); bucket [k] holds exactly the atom indices of rank [k], in
    strictly ascending order. *)
Theorem X2_buckets_by_rank_ascending (cip_ranks : list Z) :
  cip_ranks ≠ [] →
  ∃ max_rank classes,
    py_max cip_ranks = Ok max_rank
    ∧ symmetry_classes cip_ranks = Ok classes
    ∧ length classes = Z.to_nat (max_rank + 1)
    ∧ ∀ (k : nat) sym_class, classes !! k = Some sym_class →
        StronglySorted lt sym_class
        ∧ ∀ i : nat, i ∈ sym_class ↔ cip_ranks !! i = Some (Z.of_nat k).
Proof.
  intros Hne. destruct (py_max_spec cip_ranks Hne) as (m & Hmax & _ & _).
  exists m, (np_where_eq cip_ranks <$> py_range (m + 1)).
  split; [done|]. split; [unfold symmetry_classes; by rewrite Hmax|].
  split; [unfold py_range; by rewrite length_fmap, length_seqZ|].
  intros k cls Hk. rewrite list_lookup_fmap in Hk. unfold py_range in Hk.
  destruct (seqZ 0 (m + 1) !! k) as [r|] eqn:Hr; [|done].
  apply lookup_seqZ in Hr as [-> _]. injection Hk as <-.
  split; [apply np_where_eq_from_sorted|].
  intros i. rewrite elem_of_np_where_eq.
  by replace (0 + Z.of_nat k) with (Z.of_nat k) by lia.
Qed.

Lemma X2_buckets_by_rank_ascending_witness :
  [5; 5; 5] ≠ []
  ∧ ∃ max_rank classes,
      py_max [5; 5; 5] = Ok max_rank
      ∧ symmetry_classes [5; 5; 5] = Ok classes
      ∧ length classes = Z.to_nat (max_rank + 1)
      ∧ ∀ (k : nat) sym_class, classes !! k = Some sym_class →
          StronglySorted lt sym_class
          ∧ ∀ i : nat, i ∈ sym_class ↔ [5; 5; 5] !! i = Some (Z.of_nat k).
Proof.
  assert ([5; 5; 5] ≠ @nil Z) as Hne by done.
  split; [exact Hne|].
  exact (X2_buckets_by_rank_ascending [5; 5; 5] Hne).
Defined.

(** X3: on any non-empty rank array, whatever the signs of its values,
    the classifier returns a mapping; its keys are exactly the indices of
    the atoms whose rank is not negative, and each of them is mapped to
    the decimal string of its rank. *)
Theorem X3_classify_any_nonempty_array (cip_ranks : list Z) :
  cip_ranks ≠ [] →
  ∃ d, classify cip_ranks = Ok d
     ∧ (∀ (i : nat) (label : string),
          d !! i = Some label
          ↔ ∃ r, cip_ranks !! i = Some r ∧ 0 ≤ r ∧ label = py_str r)
     ∧ (∀ i : nat, i ∈ dom d ↔ ∃ r, cip_ranks !! i = Some r ∧ 0 ≤ r).
Proof.
  intros Hne. destruct (classify_nonempty cip_ranks Hne) as (d & Hd & Hlook).
  exists d. split; [done|].
  assert (∀ (i : nat) (label : string),
            d !! i = Some label
            ↔ ∃ r, cip_ranks !! i = Some r ∧ 0 ≤ r ∧ label = py_str r) as Hchar.
  { intros i label. rewrite Hlook. unfold label_of_rank.
    destruct (cip_ranks !! i) as [r|]; cbn.
    - case_bool_decide as Hr; split.
      + intros [= <-]. by exists r.
      + by intros (r' & [= <-] & _ & ->).
      + done.
      + intros (r' & [= <-] & ? & _). lia.
    - split; [done|]. by intros (r & ? & _). }
  split; [exact Hchar|].
  intros i. rewrite elem_of_dom. split.
  - intros [label (r & Hr & Hpos & _)%Hchar]. by exists r.
  - intros (r & Hr & Hpos). exists (py_str r). apply Hchar. by exists r.
Qed.

Lemma X3_classify_any_nonempty_array_witness :
  [-3; 2] ≠ []
  ∧ ∃ d, classify [-3; 2] = Ok d
       ∧ (∀ (i : nat) (label : string),
            d !! i = Some label
            ↔ ∃ r, [-3; 2] !! i = Some r ∧ 0 ≤ r ∧ label = py_str r)
       ∧ (∀ i : nat, i ∈ dom d ↔ ∃ r, [-3; 2] !! i = Some r ∧ 0 ≤ r).
Proof.
  assert ([-3; 2] ≠ @nil Z) as Hne by done.
  split; [exact Hne|].
  exact (X3_classify_any_nonempty_array [-3; 2] Hne).
Defined.

(** ** [find_symmetry_classes] on molecules with and without ranks *)

Lemma comprehension_missing_rank (atom_list : list Atom) :
  Exists (λ atom, cip_rank atom = None) atom_list →
  comprehension GetProp_CIPRank atom_list = Raise (KeyError "_CIPRank").
Proof.
  induction atom_list as [|atom rest IH]; intros Hex.
  - by apply Exists_nil in Hex.
  - cbn [comprehension]. destruct (cip_rank atom) as [r|] eqn:Hr.
    + assert (GetProp_CIPRank atom = Ok r) as ->.
      { unfold GetProp_CIPRank. by rewrite Hr. }
      cbn [mbind result_bind].
      apply Exists_cons in Hex as [Hnone|Hex]; [congruence|].
      by rewrite (IH Hex).
    + assert (GetProp_CIPRank atom = Raise (KeyError "_CIPRank")) as ->.
      { unfold GetProp_CIPRank. by rewrite Hr. }
      done.
Qed.

Lemma all_ranked_carries (atom_list : list Atom) :
  Forall (λ atom, is_Some (cip_rank atom)) atom_list →
  ∃ cip_ranks, cip_rank <$> atom_list = Some <$> cip_ranks.
Proof.
  induction 1 as [|atom rest [r Hr] _ [ranks IH]].
  - by exists [].
  - exists (r :: ranks). cbn [fmap list_fmap]. rewrite Hr. f_equal. exact IH.
Qed.

(** X4: only the first atom is checked for a rank. When it has one and
    some other atom has none, the call raises the [KeyError] of the
    missing property; no rank is assigned and the molecule stays as it
    was. *)
Theorem X4_later_atom_without_rank_raises `{Toolkit} (mol : Molecule) (first : Atom) :
  atoms mol !! 0%nat = Some first →
  is_Some (cip_rank first) →
  Exists (λ atom, cip_rank atom = None) (atoms mol) →
  find_symmetry_classes mol = (Raise (KeyError "_CIPRank"), mol).
Proof.
  intros Hfirst [r Hr] Hmissing.
  unfold find_symmetry_classes, GetAtomWithIdx. rewrite Hfirst.
  unfold HasProp_CIPRank. rewrite Hr. cbn [negb].
  by rewrite (comprehension_missing_rank _ Hmissing).
Qed.

Lemma X4_later_atom_without_rank_raises_witness :
  let mol := mkMolecule None [mkAtom "C" (Some 0); mkAtom "H" None] [] [] in
  atoms mol !! 0%nat = Some (mkAtom "C" (Some 0))
  ∧ is_Some (cip_rank (mkAtom "C" (Some 0)))
  ∧ Exists (λ atom, cip_rank atom = None) (atoms mol)
  ∧ @find_symmetry_classes stub_toolkit mol = (Raise (KeyError "_CIPRank"), mol).
Proof.
  cbn zeta.
  set (mol := mkMolecule None [mkAtom "C" (Some 0); mkAtom "H" None] [] []).
  assert (atoms mol !! 0%nat = Some (mkAtom "C" (Some 0))) as Hfirst by reflexivity.
  assert (is_Some (cip_rank (mkAtom "C" (Some 0)))) as Hsome by (by eexists).
  assert (Exists (λ atom, cip_rank atom = None) (atoms mol)) as Hmissing.
  { apply Exists_cons_tl, Exists_cons_hd. reflexivity. }
  split; [exact Hfirst|]. split; [exact Hsome|]. split; [exact Hmissing|].
  exact (@X4_later_atom_without_rank_raises stub_toolkit mol _ Hfirst Hsome Hmissing).
Defined.

(** X5: when the first atom has no rank, the ranks that are classified
    are the ones the stereochemistry assignment leaves on the molecule:
    the result is the classification of that rank array, and the
    molecule the caller holds afterwards carries it. *)
Theorem X5_unranked_molecule_gets_assigned_ranks `{Toolkit} (mol : Molecule) (first : Atom) :
  atoms mol !! 0%nat = Some first →
  cip_rank first = None →
  ∃ cip_ranks,
    carries_ranks (AssignStereochemistry mol) cip_ranks
    ∧ find_symmetry_classes mol = (classify cip_ranks, AssignStereochemistry mol).
Proof.
  intros Hfirst Hnone.
  destruct (all_ranked_carries _ (AssignStereochemistry_ranks mol)) as [ranks Hranks].
  exists ranks. split; [exact Hranks|].
  unfold find_symmetry_classes, GetAtomWithIdx. rewrite Hfirst.
  unfold HasProp_CIPRank. rewrite Hnone. cbn [negb].
  by rewrite (comprehension_ranks _ ranks Hranks).
Qed.

Lemma X5_unranked_molecule_gets_assigned_ranks_witness :
  atoms two_atoms !! 0%nat = Some (mkAtom "H" None)
  ∧ cip_rank (mkAtom "H" None) = None
  ∧ ∃ cip_ranks,
      carries_ranks (@AssignStereochemistry stub_toolkit two_atoms) cip_ranks
      ∧ @find_symmetry_classes stub_toolkit two_atoms
        = (classify cip_ranks, @AssignStereochemistry stub_toolkit two_atoms).
Proof.
  assert (atoms two_atoms !! 0%nat = Some (mkAtom "H" None)) as Hfirst by reflexivity.
  assert (cip_rank (mkAtom "H" None) = None) as Hnone by reflexivity.
  split; [exact Hfirst|]. split; [exact Hnone|].
  exact (@X5_unranked_molecule_gets_assigned_ranks stub_toolkit two_atoms _ Hfirst Hnone).
Defined.

(** X6: a call that returns a mapping, whether or not it had to assign
    ranks, leaves the molecule in a state on which every further call
    returns the same mapping and changes nothing any more. *)
Theorem X6_repeated_call_is_stable `{Toolkit} (mol mol1 : Molecule) (d : gmap nat string) :
  find_symmetry_classes mol = (Ok d, mol1) →
  find_symmetry_classes mol1 = (Ok d, mol1)
  ∧ find_symmetry_classes_twice mol = (Ok d, Ok d, mol1).
Proof.
  intros Hcall. pose proof (find_symmetry_classes_again mol mol1 d Hcall) as Hagain.
  split; [exact Hagain|].
  unfold find_symmetry_classes_twice. rewrite Hcall. by rewrite Hagain.
Qed.

Lemma X6_repeated_call_is_stable_witness :
  let mol1 := mkMolecule None [mkAtom "C" (Some 0)] [] [] in
  @find_symmetry_classes stub_toolkit one_atom = (Ok {[ 0%nat := "0" ]}, mol1)
  ∧ @find_symmetry_classes stub_toolkit mol1 = (Ok {[ 0%nat := "0" ]}, mol1)
  ∧ @find_symmetry_classes_twice stub_toolkit one_atom
    = (Ok {[ 0%nat := "0" ]}, Ok {[ 0%nat := "0" ]}, mol1).
Proof.
  cbn zeta.
  assert (@find_symmetry_classes stub_toolkit one_atom
          = (Ok {[ 0%nat := "0" ]}, mkMolecule None [mkAtom "C" (Some 0)] [] []))
    as Hcall by (vm_compute; reflexivity).
  split; [exact Hcall|].
  exact (@X6_repeated_call_is_stable stub_toolkit _ _ _ Hcall).
Defined.

(** ** Conformers: [add_conformer] and the read-out of [generate_conformers] *)

Lemma make_Point3D_cases (coord : list float64) :
  (length coord = 0%nat ∨ length coord = 3%nat) ∧ is_Ok (make_Point3D coord)
  ∨ ¬ (length coord = 0%nat ∨ length coord = 3%nat)
    ∧ make_Point3D coord = Raise ArgumentError.
Proof.
  destruct coord as [|x [|y [|z [|? ?]]]]; cbn.
  - left. split; [by left|by eexists].
  - right. split; [lia|done].
  - right. split; [lia|done].
  - left. split; [by right|by eexists].
  - right. split; [lia|done].
Qed.

Lemma rows_to_points (coords : list (list float64)) :
  Forall (λ coord, length coord = 0%nat ∨ length coord = 3%nat) coords →
  ∃ points, Forall2 (λ coord p, make_Point3D coord = Ok p) coords points.
Proof.
  induction 1 as [|coord coords Hc _ [points IH]].
  - exists []. constructor.
  - destruct (make_Point3D_cases coord) as [[_ [p Hp]]|[Hbad _]]; [|done].
    exists (p :: points). by constructor.
Qed.

Lemma set_positions_bad_row (coords : list (list float64)) (indices : list Z)
    (conformer : Conformer) :
  length indices = length coords →
  ¬ Forall (λ coord, length coord = 0%nat ∨ length coord = 3%nat) coords →
  set_positions conformer (zip indices coords) = Raise ArgumentError.
Proof.
  revert indices conformer.
  induction coords as [|coord coords IH]; intros indices conformer Hlen Hbad.
  - destruct Hbad. constructor.
  - destruct indices as [|i indices]; [done|]. cbn [zip_with set_positions].
    destruct (make_Point3D_cases coord) as [[Hok [p Hp]]|[_ Hraise]].
    + rewrite Hp. cbn [mbind result_bind]. apply IH.
      * cbn in Hlen. lia.
      * intros Hall. apply Hbad. by constructor.
    + by rewrite Hraise.
Qed.

(** The three ways a call of [add_conformer] can go. *)
Lemma add_conformer_appends (mol : Molecule) (coords : list (list float64))
    (points : list Point3D) :
  Forall2 (λ coord p, make_Point3D coord = Ok p) coords points →
  length coords = length (atoms mol) →
  add_conformer mol coords
  = (Ok (PyMol (mkMolecule (mol_name mol) (atoms mol) (bonds mol)
                  (conformers mol ++ [mkConformer (fresh_conformer_id mol) points]))),
     mkMolecule (mol_name mol) (atoms mol) (bonds mol)
       (conformers mol ++ [mkConformer (fresh_conformer_id mol) points])).
Proof.
  intros Hpoints Hlen. unfold add_conformer, py_enumerate.
  pose proof (set_positions_from coords points new_Conformer Hpoints) as Hset.
  cbn [new_Conformer positions conf_id length app] in Hset.
  change (Z.of_nat 0) with 0 in Hset. rewrite Hset.
  unfold AddConformer. cbn [positions conf_id].
  rewrite decide_True; [done|].
  apply Forall2_length in Hpoints. lia.
Qed.

Lemma add_conformer_wrong_count (mol : Molecule) (coords : list (list float64)) :
  Forall (λ coord, length coord = 0%nat ∨ length coord = 3%nat) coords →
  length coords ≠ length (atoms mol) →
  add_conformer mol coords = (Raise (ToolkitError "Number of atom mismatch"), mol).
Proof.
  intros Hrows Hlen. destruct (rows_to_points coords Hrows) as [points Hpoints].
  unfold add_conformer, py_enumerate.
  pose proof (set_positions_from coords points new_Conformer Hpoints) as Hset.
  cbn [new_Conformer positions conf_id length app] in Hset.
  change (Z.of_nat 0) with 0 in Hset. rewrite Hset.
  unfold AddConformer. cbn [positions conf_id].
  rewrite decide_False; [done|].
  apply Forall2_length in Hpoints. lia.
Qed.

Lemma add_conformer_bad_row (mol : Molecule) (coords : list (list float64)) :
  ¬ Forall (λ coord, length coord = 0%nat ∨ length coord = 3%nat) coords →
  add_conformer mol coords = (Raise ArgumentError, mol).
Proof.
  intros Hbad. unfold add_conformer, py_enumerate.
  rewrite set_positions_bad_row; [done| |done].
  rewrite length_seqZ. lia.
Qed.

Lemma rows_ok_dec (coords : list (list float64)) :
  Decision (Forall (λ coord, length coord = 0%nat ∨ length coord = 3%nat) coords).
Proof. apply Forall_dec. intros coord. apply _. Defined.

Lemma GetPositions_of_points (coords : list (list float64)) (points : list Point3D)
    (id : Z) :
  Forall2 (λ coord p, coord = [px p; py p; pz p]) coords points →
  GetPositions (mkConformer id points) = coords.
Proof.
  unfold GetPositions. cbn [positions].
  induction 1 as [|coord p coords points -> _ IH]; [done|].
  cbn [fmap list_fmap]. f_equal. exact IH.
Qed.

(** X7: after a conformer has been added with one coordinate triple per
    atom, reading the positions of all conformers back, as
    [generate_conformers] does, gives the arrays that were there before
    followed by the very coordinates that were passed in, in the same
    order. *)
Theorem X7_added_coordinates_read_back (mol : Molecule)
    (conformer_coordinates : list (list float64)) :
  length conformer_coordinates = length (atoms mol) →
  Forall (λ coord, length coord = 3%nat) conformer_coordinates →
  conformer_positions (add_conformer mol conformer_coordinates).2
  = conformer_positions mol ++ [conformer_coordinates].
Proof.
  intros Hlen Hthree.
  assert (∃ points,
    Forall2 (λ coord p, make_Point3D coord = Ok p ∧ coord = [px p; py p; pz p])
            conformer_coordinates points) as [points Hpoints].
  { clear Hlen. induction Hthree as [|coord coords Hc _ [points IH]].
    - exists []. constructor.
    - destruct (make_Point3D_three coord Hc) as (p & Hp & Hcoord).
      exists (p :: points). by constructor. }
  rewrite (add_conformer_appends mol conformer_coordinates points).
  - unfold conformer_positions, GetConformers. cbn [snd conformers].
    rewrite fmap_app. cbn [fmap list_fmap]. do 2 f_equal.
    apply GetPositions_of_points.
    eapply Forall2_impl; [exact Hpoints|]. by intros ?? [_ ?].
  - eapply Forall2_impl; [exact Hpoints|]. by intros ?? [? _].
  - done.
Qed.

Lemma X7_added_coordinates_read_back_witness :
  let conformer_coordinates := [[0; 0; 0]; [one_float; 0; 0]] in
  length conformer_coordinates = length (atoms two_atoms)
  ∧ Forall (λ coord, length coord = 3%nat) conformer_coordinates
  ∧ conformer_positions (add_conformer two_atoms conformer_coordinates).2
    = conformer_positions two_atoms ++ [conformer_coordinates].
Proof.
  assert (length [[0; 0; 0]; [one_float; 0; 0]] = length (atoms two_atoms)) as Hlen
    by reflexivity.
  assert (Forall (λ coord : list float64, length coord = 3%nat)
                 [[0; 0; 0]; [one_float; 0; 0]]) as Hthree
    by (repeat constructor).
  split; [exact Hlen|]. split; [exact Hthree|].
  exact (X7_added_coordinates_read_back two_atoms _ Hlen Hthree).
Defined.

(** X8: [add_conformer] returns exactly when there are as many
    coordinate rows as atoms and every row unpacks into a point (three
    entries, or none); a row of another length ends the call in an
    [ArgumentError], and in every failing call the molecule keeps the
    conformers it had. *)
Theorem X8_add_conformer_succeeds_iff (mol : Molecule)
    (conformer_coordinates : list (list float64)) :
  (is_Ok (add_conformer mol conformer_coordinates).1
   ↔ length conformer_coordinates = length (atoms mol)
     ∧ Forall (λ coord, length coord = 0%nat ∨ length coord = 3%nat)
              conformer_coordinates)
  ∧ (¬ Forall (λ coord, length coord = 0%nat ∨ length coord = 3%nat)
              conformer_coordinates →
     add_conformer mol conformer_coordinates = (Raise ArgumentError, mol))
  ∧ (¬ is_Ok (add_conformer mol conformer_coordinates).1 →
     (add_conformer mol conformer_coordinates).2 = mol).
Proof.
  destruct (rows_ok_dec conformer_coordinates) as [Hrows|Hbad].
  - destruct (decide (length conformer_coordinates = length (atoms mol))) as [Hlen|Hlen].
    + destruct (rows_to_points _ Hrows) as [points Hpoints].
      rewrite (add_conformer_appends mol _ points Hpoints Hlen). cbn [fst snd].
      split; [|split].
      * split; [done|]. intros _. by eexists.
      * done.
      * intros Hnot. destruct Hnot. by eexists.
    + rewrite (add_conformer_wrong_count mol _ Hrows Hlen). cbn [fst snd].
      split; [|split]; [|done|done].
      split; [by intros [? ?]|]. by intros [? _].
  - rewrite (add_conformer_bad_row mol _ Hbad). cbn [fst snd].
    split; [|split]; [|done|done].
    split; [by intros [? ?]|]. by intros [_ ?].
Qed.

Example add_conformer_two_coordinates_per_row :
  add_conformer two_atoms [[0; 0]; [one_float; 0]] = (Raise ArgumentError, two_atoms).
Proof. vm_compute. reflexivity. Qed.

Example add_conformer_one_row_too_many :
  add_conformer two_atoms [[0; 0; 0]; [one_float; 0; 0]; [0; one_float; 0]]
  = (Raise (ToolkitError "Number of atom mismatch"), two_atoms).
Proof. vm_compute. reflexivity. Qed.



(** ** The dispatcher and the SMILES path, step by step *)

Lemma suffix_format_Some (suffix : string) (format : file_format) :
  suffix_format suffix = Some format ↔ suffix = format_suffix format.
Proof.
  unfold suffix_format. split.
  - repeat case_decide; intros [= <-]; done.
  - intros ->. by destruct format.
Qed.

Lemma read_file_value (format : file_format)
    (reader : string → result (option Molecule)) (fname : string) (w : world) :
  read_file format reader fname w
  = (reader_value (reader fname), after w [FileRead format fname]).
Proof.
  unfold read_file, after. unfold_M. by destruct (reader fname) as [[mol|]|e].
Qed.

Lemma mol_input_to_rdkit_mol_path `{Toolkit} (path : Path) (name : option string)
    (w : world) :
  mol_input_to_rdkit_mol (InputPath path) name w
  = match suffix_format (path_suffix path) with
    | Some format => read_file format (reader_of format) (path_name path) w
    | None => (Ok PyNone, w)
    end.
Proof.
  cbn [mol_input_to_rdkit_mol]. unfold suffix_format.
  by repeat case_decide.
Qed.

Lemma mol_input_to_rdkit_mol_supported `{Toolkit} (path : Path) (format : file_format)
    (name : option string) (w : world) :
  path_suffix path = format_suffix format →
  mol_input_to_rdkit_mol (InputPath path) name w
  = (reader_value (reader_of format (path_name path)),
     after w [FileRead format (path_name path)]).
Proof.
  intros Hsuffix. rewrite mol_input_to_rdkit_mol_path.
  apply suffix_format_Some in Hsuffix. rewrite Hsuffix.
  apply read_file_value.
Qed.

(** X11: for a path with one of the three suffixes the dispatcher makes
    exactly one call, to the reader of that suffix, with the [name]
    attribute of the path. A molecule read is returned, a file that does
    not parse gives [None] and no exception, an exception of the reader
    is passed on. The [name] argument is not used and nothing is read
    from the terminal. *)
Theorem X11_path_is_read_by_its_suffix `{Toolkit} (path : Path) (format : file_format)
    (name : option string) (w : world) :
  path_suffix path = format_suffix format →
  mol_input_to_rdkit_mol (InputPath path) name w
  = (reader_value (reader_of format (path_name path)),
     after w [FileRead format (path_name path)]).
Proof.
  intros Hsuffix. by apply mol_input_to_rdkit_mol_supported.
Qed.

Lemma X11_path_is_read_by_its_suffix_witness :
  let path := mkPath "ethane.mol2" ".mol2" "ethane" in
  path_suffix path = format_suffix MOL2
  ∧ @mol_input_to_rdkit_mol stub_toolkit (InputPath path) (Some "ignored") fresh_world
    = (reader_value (@reader_of stub_toolkit MOL2 (path_name path)),
       after fresh_world [FileRead MOL2 (path_name path)]).
Proof.
  cbn zeta.
  assert (path_suffix (mkPath "ethane.mol2" ".mol2" "ethane") = format_suffix MOL2)
    as Hsuffix by reflexivity.
  split; [exact Hsuffix|].
  exact (@X11_path_is_read_by_its_suffix stub_toolkit _ MOL2 (Some "ignored")
           fresh_world Hsuffix).
Defined.

Lemma smiles_to_rdkit_mol_events `{Toolkit} (smiles_string : string) (name : option string)
    (w : world) :
  let w' := (smiles_to_rdkit_mol smiles_string name w).2 in
  ∃ rest,
    Forall (λ ev, ev = Embedded) rest
    ∧ (length rest ≤ 1)%nat
    ∧ match name with
      | Some _ =>
          stdin w' = stdin w
          ∧ trace w' = trace w ++ SmilesParsed smiles_string :: rest
      | None =>
          stdin w' = tail (stdin w)
          ∧ trace w'
            = trace w ++ SmilesParsed smiles_string :: Prompted name_prompt :: rest
      end.
Proof.
  cbn zeta. unfold smiles_to_rdkit_mol. unfold_M.
  destruct name as [name|]; cbn.
  - destruct (MolFromSmiles smiles_string) as [mol|]; cbn.
    + exists [Embedded].
      destruct (SanitizeMol _); cbn;
        (split; [by repeat constructor|split; [cbn; lia|split; [done|by rewrite <-app_assoc]]]).
    + exists []. split; [constructor|]. split; [cbn; lia|]. done.
  - destruct (stdin w) as [|line lines]; cbn.
    + exists []. split; [constructor|]. split; [cbn; lia|].
      split; [done|by rewrite <-app_assoc].
    + destruct (MolFromSmiles smiles_string) as [mol|]; cbn.
      * exists [Embedded].
        destruct (SanitizeMol _); cbn;
          (split; [by repeat constructor|
                   split; [cbn; lia|split; [done|by rewrite <-!app_assoc]]]).
      * exists []. split; [constructor|]. split; [cbn; lia|].
        split; [done|by rewrite <-app_assoc].
Qed.

(** X12: the SMILES path asks for a name exactly when none is passed,
    once, and only after the string has been handed to the SMILES
    parser; it then takes the first pending line of the terminal. With a
    name it reads nothing. Besides that it only embeds. *)
Theorem X12_prompt_iff_no_name `{Toolkit} (smiles_string : string) (name : option string)
    (w : world) :
  let w' := (smiles_to_rdkit_mol smiles_string name w).2 in
  ∃ rest,
    Forall (λ ev, ev = Embedded) rest
    ∧ (length rest ≤ 1)%nat
    ∧ match name with
      | Some _ =>
          stdin w' = stdin w
          ∧ trace w' = trace w ++ SmilesParsed smiles_string :: rest
      | None =>
          stdin w' = tail (stdin w)
          ∧ trace w'
            = trace w ++ SmilesParsed smiles_string :: Prompted name_prompt :: rest
      end.
Proof. apply smiles_to_rdkit_mol_events. Qed.

(** X13: a string that the SMILES parser rejects ends the call in an
    [AttributeError] (the property is set on [None]) before anything is
    embedded; when no name was passed the user has been asked for one
    all the same. With no name and nothing to read the call ends in
    [EOFError]. *)
Theorem X13_rejected_smiles_raises `{Toolkit} (smiles_string : string) (w : world) :
  MolFromSmiles smiles_string = None →
  (∀ name, smiles_to_rdkit_mol smiles_string (Some name) w
           = (Raise AttributeError, after w [SmilesParsed smiles_string]))
  ∧ (∀ line lines, stdin w = line :: lines →
       smiles_to_rdkit_mol smiles_string None w
       = (Raise AttributeError,
          mkWorld (trace w ++ [SmilesParsed smiles_string; Prompted name_prompt])
                  lines))
  ∧ (stdin w = [] →
       smiles_to_rdkit_mol smiles_string None w
       = (Raise EOFError,
          mkWorld (trace w ++ [SmilesParsed smiles_string; Prompted name_prompt]) [])).
Proof.
  intros Hnone. unfold smiles_to_rdkit_mol, after. unfold_M. rewrite Hnone.
  split; [|split].
  - done.
  - intros line lines ->. cbn. by rewrite <-app_assoc.
  - intros ->. cbn. by rewrite <-app_assoc.
Qed.

Lemma X13_rejected_smiles_raises_witness :
  @MolFromSmiles strict_toolkit "not a molecule" = None
  ∧ (∀ name, @smiles_to_rdkit_mol strict_toolkit "not a molecule" (Some name) fresh_world
             = (Raise AttributeError, after fresh_world [SmilesParsed "not a molecule"]))
  ∧ (∀ line lines, stdin fresh_world = line :: lines →
       @smiles_to_rdkit_mol strict_toolkit "not a molecule" None fresh_world
       = (Raise AttributeError,
          mkWorld (trace fresh_world
                   ++ [SmilesParsed "not a molecule"; Prompted name_prompt])
                  lines))
  ∧ (stdin fresh_world = [] →
       @smiles_to_rdkit_mol strict_toolkit "not a molecule" None fresh_world
       = (Raise EOFError,
          mkWorld (trace fresh_world
                   ++ [SmilesParsed "not a molecule"; Prompted name_prompt]) [])).
Proof.
  assert (@MolFromSmiles strict_toolkit "not a molecule" = None) as Hnone by reflexivity.
  split; [exact Hnone|].
  exact (@X13_rejected_smiles_raises strict_toolkit "not a molecule" fresh_world Hnone).
Defined.

(** ** The front ends built on the dispatcher *)

Lemma optimisers_lookup `{Toolkit} (ff : string) :
  optimisers !! ff = call_optimiser <$> selector_force_field ff.
Proof.
  unfold optimisers, selector_force_field.
  destruct (decide (ff = "MMF")) as [->|Hmmf]; [done|].
  destruct (decide (ff = "UFF")) as [->|Huff].
  - by rewrite lookup_insert_eq.
  - rewrite !lookup_insert_ne by done. by rewrite lookup_empty.
Qed.

Lemma selector_force_field_Some (ff : string) (f : force_field) :
  selector_force_field ff = Some f
  ↔ (ff = "MMF" ∧ f = MMFF) ∨ (ff = "UFF" ∧ f = UFF).
Proof.
  unfold selector_force_field.
  destruct (decide (ff = "MMF")) as [->|Hmmf].
  { split; [intros [= <-]; by left|]. by intros [[_ ->]|[? _]]. }
  destruct (decide (ff = "UFF")) as [->|Huff].
  { split; [intros [= <-]; by right|]. by intros [[? _]|[_ ->]]. }
  split; [done|]. by intros [[? _]|[? _]].
Qed.

Lemma after_after (w : world) (evs1 evs2 : list event) :
  after (after w evs1) evs2 = after w (evs1 ++ evs2).
Proof. unfold after. cbn. by rewrite <-app_assoc. Qed.

Lemma after_nil (w : world) : after w [] = w.
Proof. unfold after. rewrite app_nil_r. by destruct w. Qed.

(** What [mm_optimise] does once the dispatcher has answered. *)
Lemma mm_optimise_run `{Toolkit} (filename : MolInput) (ff : string) (w w1 : world)
    (parsed : result pyvalue) :
  mol_input_to_rdkit_mol filename None w = (parsed, w1) →
  mm_optimise filename ff w
  = match parsed with
    | Raise e => (Raise e, w1)
    | Ok mol =>
        match selector_force_field ff with
        | None => (Raise (KeyError ff), w1)
        | Some f =>
            match mol with
            | PyMol m =>
                match optimiser_of f m with
                | Raise e => (Raise e, after w1 [OptimiserCalled f])
                | Ok m' =>
                    match filename with
                    | InputStr _ =>
                        (Raise AttributeError, after w1 [OptimiserCalled f])
                    | InputPath path =>
                        match WritePDBFile m'
                                (path_stem path +:+ "_rdkit_optimised.pdb") with
                        | Raise e => (Raise e, after w1 [OptimiserCalled f])
                        | Ok _ =>
                            (Ok (PyStr (path_stem path +:+ "_rdkit_optimised.pdb")),
                             after w1
                               [OptimiserCalled f;
                                FileWritten (path_stem path +:+ "_rdkit_optimised.pdb")])
                        end
                    end
                end
            | _ => (Raise ArgumentError, after w1 [OptimiserCalled f])
            end
        end
    end.
Proof.
  intros Hparse. unfold mm_optimise. unfold mbind at 1. unfold M_bind at 1.
  rewrite Hparse. destruct parsed as [mol|e]; [|done].
  rewrite optimisers_lookup.
  destruct (selector_force_field ff) as [f|]; [|done].
  cbn [fmap option_fmap option_map].
  unfold call_optimiser, MolToPDBFile, after. unfold_M.
  destruct mol as [|i|s|m]; try done.
  assert (match f with
          | MMFF => MMFFOptimizeMolecule m
          | UFF => UFFOptimizeMolecule m
          end = optimiser_of f m) as -> by (by destruct f).
  destruct (optimiser_of f m) as [m'|e]; [|done].
  destruct filename as [smiles|path]; cbn; [done|].
  destruct (WritePDBFile m' _) as [[]|e]; cbn; [|done].
  by rewrite <-app_assoc.
Qed.

(** X14: [mm_optimise] returns exactly when it is given a path with one
    of the three suffixes whose file parses to a molecule, a selector
    "MMF" or "UFF", the optimiser of that selector goes through, and the
    optimised molecule can be written. It then has read the file, run
    that optimiser and written one file, in this order, and the name it
    returns is the name of the file it wrote: the stem of the path
    followed by "_rdkit_optimised.pdb". *)
Theorem X14_mm_optimise_returns_iff `{Toolkit} (filename : MolInput) (ff : string)
    (w w' : world) (v : pyvalue) :
  mm_optimise filename ff w = (Ok v, w')
  ↔ ∃ path format f mol mol',
      filename = InputPath path
      ∧ path_suffix path = format_suffix format
      ∧ selector_force_field ff = Some f
      ∧ reader_of format (path_name path) = Ok (Some mol)
      ∧ optimiser_of f mol = Ok mol'
      ∧ WritePDBFile mol' (path_stem path +:+ "_rdkit_optimised.pdb") = Ok ()
      ∧ v = PyStr (path_stem path +:+ "_rdkit_optimised.pdb")
      ∧ w' = after w [FileRead format (path_name path);
                      OptimiserCalled f;
                      FileWritten (path_stem path +:+ "_rdkit_optimised.pdb")].
Proof.
  destruct (mol_input_to_rdkit_mol filename None w) as [parsed w1] eqn:Hparse.
  rewrite (mm_optimise_run filename ff w w1 parsed Hparse). split.
  - intros Hrun.
    destruct parsed as [mol|e]; [|done].
    destruct (selector_force_field ff) as [f|] eqn:Hff; [|done].
    destruct mol as [|i|s|m]; try done.
    destruct (optimiser_of f m) as [m'|e] eqn:Hopt; [|done].
    destruct filename as [smiles|path]; [done|].
    destruct (WritePDBFile m' _) as [[]|e] eqn:Hwrite; [|done].
    injection Hrun as <- <-.
    rewrite mol_input_to_rdkit_mol_path in Hparse.
    destruct (suffix_format (path_suffix path)) as [format|] eqn:Hformat; [|done].
    rewrite read_file_value in Hparse. injection Hparse as Hvalue <-.
    destruct (reader_of format (path_name path)) as [[mol|]|e] eqn:Hread; try done.
    injection Hvalue as ->.
    exists path, format, f, m, m'.
    split; [done|]. split; [by apply suffix_format_Some|].
    split; [done|]. split; [done|]. split; [done|]. split; [done|]. split; [done|].
    by rewrite after_after.
  - intros (path & format & f & mol & mol' & -> & Hsuffix & Hff & Hread & Hopt
            & Hwrite & -> & ->).
    rewrite (mol_input_to_rdkit_mol_supported path format None w Hsuffix) in Hparse.
    rewrite Hread in Hparse. injection Hparse as <- <-.
    rewrite Hff, Hopt, Hwrite. by rewrite after_after.
Qed.

(** When the file cannot be written the molecule has been optimised all
    the same, and the exception of the writer ends the call. *)
Example mm_optimise_cannot_write :
  @mm_optimise readonly_toolkit (InputPath (mkPath "ethane.pdb" ".pdb" "ethane")) "MMF"
    fresh_world
  = (Raise (ToolkitError "Bad output file"),
     mkWorld [FileRead PDB "ethane.pdb"; OptimiserCalled MMFF] ["ethane"]).
Proof. vm_compute. reflexivity. Qed.

Lemma smiles_to_rdkit_mol_no_write `{Toolkit} (smiles : string) (name : option string)
    (w : world) :
  extends (λ ev, is_file_write ev = false) w (smiles_to_rdkit_mol smiles name w).2
  ∧ stdin (smiles_to_rdkit_mol smiles name w).2
    = match name with Some _ => stdin w | None => tail (stdin w) end.
Proof.
  destruct (smiles_to_rdkit_mol_events smiles name w) as (rest & Hrest & _ & Hname).
  assert (Forall (λ ev, is_file_write ev = false) rest) as Hquiet.
  { eapply Forall_impl; [exact Hrest|]. by intros ev ->. }
  destruct name as [name|]; destruct Hname as [Hstdin Htrace].
  - split; [|done]. eexists. split; [exact Htrace|]. by constructor.
  - split; [|done]. eexists. split; [exact Htrace|]. by repeat constructor.
Qed.

Lemma extends_after (P : event → Prop) (w w1 : world) (evs : list event) :
  extends P w w1 → Forall P evs → extends P w (after w1 evs).
Proof.
  intros (evs1 & Htrace & Hall) Hevs. exists (evs1 ++ evs). split.
  - unfold after. cbn. by rewrite Htrace, <-app_assoc.
  - by apply Forall_app.
Qed.

(** X15: [mm_optimise] on a string never returns and never writes a
    file. When the string parses, the selector is known and the
    optimiser goes through, the molecule has been optimised by the time
    the call fails: it ends in the [AttributeError] of taking the stem
    of a string. *)
Theorem X15_mm_optimise_on_string `{Toolkit} (smiles : string) (ff : string) (w : world) :
  raises (mm_optimise (InputStr smiles) ff w).1
  ∧ file_writes (mm_optimise (InputStr smiles) ff w).2 = file_writes w
  ∧ ∀ mol mol' f w1,
      smiles_to_rdkit_mol smiles None w = (Ok (PyMol mol), w1) →
      selector_force_field ff = Some f →
      optimiser_of f mol = Ok mol' →
      mm_optimise (InputStr smiles) ff w
      = (Raise AttributeError, after w1 [OptimiserCalled f]).
Proof.
  destruct (mol_input_to_rdkit_mol (InputStr smiles) None w) as [parsed w1] eqn:Hparse.
  pose proof (mm_optimise_run (InputStr smiles) ff w w1 parsed Hparse) as Hrun.
  destruct (smiles_to_rdkit_mol_no_write smiles None w) as [Hext _].
  cbn [mol_input_to_rdkit_mol] in Hparse. rewrite Hparse in Hext. cbn [snd] in Hext.
  assert (∀ f, extends (λ ev, is_file_write ev = false) w
                 (after w1 [OptimiserCalled f])) as Hext'.
  { intros f. apply extends_after; [done|]. by repeat constructor. }
  split; [|split].
  - rewrite Hrun.
    destruct parsed as [mol|e]; [|by eexists].
    destruct (selector_force_field ff) as [f|]; [|by eexists].
    destruct mol as [|i|s|m]; try by eexists.
    destruct (optimiser_of f m) as [m'|e]; by eexists.
  - unfold file_writes.
    apply (extends_filter (λ ev, is_file_write ev = false) is_file_write); [|done].
    rewrite Hrun.
    destruct parsed as [mol|e]; [|done].
    destruct (selector_force_field ff) as [f|]; [|done].
    destruct mol as [|i|s|m]; try apply Hext'.
    destruct (optimiser_of f m) as [m'|e]; apply Hext'.
  - intros mol mol' f w1' Hsmiles Hff Hopt.
    rewrite Hsmiles in Hparse. injection Hparse as <- <-.
    rewrite Hrun, Hff, Hopt. done.
Qed.

Example mm_optimise_on_string :
  @mm_optimise stub_toolkit (InputStr "CC") "UFF" fresh_world
  = (Raise AttributeError,
     mkWorld [SmilesParsed "CC"; Prompted name_prompt; Embedded; OptimiserCalled UFF] []).
Proof. vm_compute. reflexivity. Qed.

(** X16: the front end does not check what the dispatcher returned.
    When that is [None] (a suffix that is not supported, or a file that
    does not parse) and the selector is known, the optimiser is called
    on [None] and the call ends in its [ArgumentError]; no file is
    written. For an unsupported suffix this is all that happens. *)
Theorem X16_mm_optimise_on_None `{Toolkit} (filename : MolInput) (ff : string)
    (f : force_field) (w w1 : world) :
  mol_input_to_rdkit_mol filename None w = (Ok PyNone, w1) →
  selector_force_field ff = Some f →
  mm_optimise filename ff w = (Raise ArgumentError, after w1 [OptimiserCalled f])
  ∧ (∀ path, filename = InputPath path → suffix_format (path_suffix path) = None →
       w1 = w).
Proof.
  intros Hparse Hff. split.
  - rewrite (mm_optimise_run filename ff w w1 _ Hparse). by rewrite Hff.
  - intros path -> Hsuffix. rewrite mol_input_to_rdkit_mol_path, Hsuffix in Hparse.
    by injection Hparse as <-.
Qed.

Lemma X16_mm_optimise_on_None_witness :
  let filename := InputPath (mkPath "notes.txt" ".txt" "notes") in
  @mol_input_to_rdkit_mol stub_toolkit filename None fresh_world = (Ok PyNone, fresh_world)
  ∧ selector_force_field "MMF" = Some MMFF
  ∧ @mm_optimise stub_toolkit filename "MMF" fresh_world
    = (Raise ArgumentError, after fresh_world [OptimiserCalled MMFF])
  ∧ (∀ path, filename = InputPath path → suffix_format (path_suffix path) = None →
       fresh_world = fresh_world).
Proof.
  cbn zeta.
  assert (@mol_input_to_rdkit_mol stub_toolkit
            (InputPath (mkPath "notes.txt" ".txt" "notes")) None fresh_world
          = (Ok PyNone, fresh_world)) as Hparse by reflexivity.
  assert (selector_force_field "MMF" = Some MMFF) as Hff by reflexivity.
  split; [exact Hparse|]. split; [exact Hff|].
  exact (@X16_mm_optimise_on_None stub_toolkit _ "MMF" MMFF fresh_world fresh_world
           Hparse Hff).
Defined.

(** What [get_mol] does once the dispatcher has answered. *)
Lemma get_mol_run `{Toolkit} (filename : MolInput) (w w1 : world) (parsed : result pyvalue) :
  mol_input_to_rdkit_mol filename None w = (parsed, w1) →
  get_mol filename w
  = match parsed with
    | Raise e => (Raise e, w1)
    | Ok mol =>
        match filename with
        | InputStr _ => (Raise AttributeError, w1)
        | InputPath path =>
            match mol with
            | PyMol m =>
                match WriteMolFile m (path_stem path +:+ ".mol") with
                | Raise e => (Raise e, w1)
                | Ok _ =>
                    (Ok (PyStr (path_stem path +:+ ".mol")),
                     after w1 [FileWritten (path_stem path +:+ ".mol")])
                end
            | _ => (Raise ArgumentError, w1)
            end
        end
    end.
Proof.
  intros Hparse. unfold get_mol. unfold mbind at 1. unfold M_bind at 1.
  rewrite Hparse. destruct parsed as [mol|e]; [|done].
  destruct filename as [smiles|path]; [done|].
  unfold MolToMolFile, after. unfold_M. destruct mol as [|i|s|m]; try done.
  by destruct (WriteMolFile m _) as [[]|e].
Qed.

(** X17: [get_mol] returns exactly when it is given a path with one of
    the three suffixes whose file parses to a molecule that can then be
    written. It then has read that file and written one file, and the
    name it returns is the name of the file it wrote, the stem of the
    path followed by ".mol". In particular it never returns for a
    string. *)
Theorem X17_get_mol_returns_iff `{Toolkit} (filename : MolInput) (w w' : world)
    (v : pyvalue) :
  get_mol filename w = (Ok v, w')
  ↔ ∃ path format mol,
      filename = InputPath path
      ∧ path_suffix path = format_suffix format
      ∧ reader_of format (path_name path) = Ok (Some mol)
      ∧ WriteMolFile mol (path_stem path +:+ ".mol") = Ok ()
      ∧ v = PyStr (path_stem path +:+ ".mol")
      ∧ w' = after w [FileRead format (path_name path);
                      FileWritten (path_stem path +:+ ".mol")].
Proof.
  destruct (mol_input_to_rdkit_mol filename None w) as [parsed w1] eqn:Hparse.
  rewrite (get_mol_run filename w w1 parsed Hparse). split.
  - intros Hrun.
    destruct parsed as [mol|e]; [|done].
    destruct filename as [smiles|path]; [done|].
    destruct mol as [|i|s|m]; try done.
    destruct (WriteMolFile m _) as [[]|e] eqn:Hwrite; [|done].
    injection Hrun as <- <-.
    rewrite mol_input_to_rdkit_mol_path in Hparse.
    destruct (suffix_format (path_suffix path)) as [format|] eqn:Hformat; [|done].
    rewrite read_file_value in Hparse. injection Hparse as Hvalue <-.
    destruct (reader_of format (path_name path)) as [[mol|]|e] eqn:Hread; try done.
    injection Hvalue as ->.
    exists path, format, m.
    split; [done|]. split; [by apply suffix_format_Some|].
    split; [done|]. split; [done|]. split; [done|]. by rewrite after_after.
  - intros (path & format & mol & -> & Hsuffix & Hread & Hwrite & -> & ->).
    rewrite (mol_input_to_rdkit_mol_supported path format None w Hsuffix) in Hparse.
    rewrite Hread in Hparse. injection Hparse as <- <-.
    rewrite Hwrite. by rewrite after_after.
Qed.

Example get_mol_cannot_write :
  @get_mol readonly_toolkit (InputPath (mkPath "ethane.pdb" ".pdb" "ethane")) fresh_world
  = (Raise (ToolkitError "Bad output file"),
     mkWorld [FileRead PDB "ethane.pdb"] ["ethane"]).
Proof. vm_compute. reflexivity. Qed.

Example get_mol_of_pdb :
  @get_mol stub_toolkit (InputPath (mkPath "ethane.pdb" ".pdb" "ethane")) fresh_world
  = (Ok (PyStr "ethane.mol"),
     mkWorld [FileRead PDB "ethane.pdb"; FileWritten "ethane.mol"] ["ethane"]).
Proof. vm_compute. reflexivity. Qed.

(** What the two text front ends do once the dispatcher has answered. *)
Lemma serialise_run `{Toolkit} (serialise : Molecule → string) (filename : MolInput)
    (w : world) :
  (mol_input_to_rdkit_mol filename None ≫= call_serialiser serialise) w
  = (match (mol_input_to_rdkit_mol filename None w).1 with
     | Ok (PyMol mol) => Ok (PyStr (serialise mol))
     | Ok _ => Raise ArgumentError
     | Raise e => Raise e
     end,
     (mol_input_to_rdkit_mol filename None w).2).
Proof.
  unfold mbind, M_bind.
  destruct (mol_input_to_rdkit_mol filename None w) as [[mol|e] w1]; [|done].
  by destruct mol.
Qed.

(** X18: [get_smiles] and [get_smarts] on a path. With an unsupported
    suffix both end in an [ArgumentError] (the serialiser is called on
    [None]) and nothing has happened. With a supported suffix the file
    is read once: a molecule gives its SMILES, respectively SMARTS,
    string; a file that does not parse gives the same [ArgumentError];
    an exception of the reader is passed on. *)
Theorem X18_text_of_path `{Toolkit} `{Serialiser} (path : Path) (w : world) :
  let answer (serialise : Molecule → string) :=
    match suffix_format (path_suffix path) with
    | None => (Raise ArgumentError, w)
    | Some format =>
        (match reader_of format (path_name path) with
         | Ok (Some mol) => Ok (PyStr (serialise mol))
         | Ok None => Raise ArgumentError
         | Raise e => Raise e
         end,
         after w [FileRead format (path_name path)])
    end in
  get_smiles (InputPath path) w = answer MolToSmiles
  ∧ get_smarts (InputPath path) w = answer MolToSmarts.
Proof.
  cbn zeta. unfold get_smiles, get_smarts. rewrite !serialise_run.
  rewrite mol_input_to_rdkit_mol_path.
  destruct (suffix_format (path_suffix path)) as [format|]; [|done].
  rewrite read_file_value. cbn [fst snd].
  by destruct (reader_of format (path_name path)) as [[mol|]|e].
Qed.

(** X19: every front end passes no name to the dispatcher, so each of
    them, called with a string, parses it as SMILES, then asks for a
    name at the terminal and takes the first pending line; none of them
    writes a file for a string. *)
Theorem X19_string_input_prompts `{Toolkit} `{Serialiser} (smiles : string) (ff : string)
    (w : world) :
  let prompted (w' : world) :=
    stdin w' = tail (stdin w)
    ∧ file_writes w' = file_writes w
    ∧ ∃ rest, trace w' = trace w ++ SmilesParsed smiles :: Prompted name_prompt :: rest in
  prompted (get_smiles (InputStr smiles) w).2
  ∧ prompted (get_smarts (InputStr smiles) w).2
  ∧ prompted (get_mol (InputStr smiles) w).2
  ∧ prompted (mm_optimise (InputStr smiles) ff w).2.
Proof.
  cbn zeta.
  destruct (mol_input_to_rdkit_mol (InputStr smiles) None w) as [parsed w1] eqn:Hparse.
  assert (stdin w1 = tail (stdin w)
          ∧ file_writes w1 = file_writes w
          ∧ ∃ rest, trace w1
                    = trace w ++ SmilesParsed smiles :: Prompted name_prompt :: rest)
    as Hw1.
  { cbn [mol_input_to_rdkit_mol] in Hparse.
    destruct (smiles_to_rdkit_mol_events smiles None w) as (rest & _ & _ & Hstdin & Htrace).
    destruct (smiles_to_rdkit_mol_no_write smiles None w) as [Hext _].
    rewrite Hparse in Hstdin, Htrace, Hext. cbn [snd] in *.
    split; [done|]. split; [|by exists rest].
    unfold file_writes.
    by apply (extends_filter (λ ev, is_file_write ev = false) is_file_write). }
  assert (∀ f, stdin (after w1 [OptimiserCalled f]) = tail (stdin w)
          ∧ file_writes (after w1 [OptimiserCalled f]) = file_writes w
          ∧ ∃ rest, trace (after w1 [OptimiserCalled f])
                    = trace w ++ SmilesParsed smiles :: Prompted name_prompt :: rest)
    as Hafter.
  { intros f. destruct Hw1 as (Hstdin & Hwrites & rest & Htrace).
    split; [done|]. split.
    - unfold file_writes, after in *. cbn [trace].
      rewrite filter_app, Hwrites. cbn. by rewrite app_nil_r.
    - exists (rest ++ [OptimiserCalled f]). unfold after. cbn [trace].
      by rewrite Htrace, <-app_assoc. }
  split; [|split; [|split]].
  - unfold get_smiles. rewrite serialise_run, Hparse. exact Hw1.
  - unfold get_smarts. rewrite serialise_run, Hparse. exact Hw1.
  - rewrite (get_mol_run _ w w1 parsed Hparse). by destruct parsed.
  - rewrite (mm_optimise_run _ ff w w1 parsed Hparse).
    destruct parsed as [mol|e]; [|done].
    destruct (selector_force_field ff) as [f|]; [|done].
    destruct mol as [|i|s|m]; try apply Hafter.
    destruct (optimiser_of f m); apply Hafter.
Qed.
